(** * The JSON diff service (services/jsonDiff.ts, services/diffExport.ts)

    A shallow embedding of the comparison orchestrator, the delta flattener,
    the summary aggregator, the character-level diff of texts and of their
    lines, the JSON Patch, text and HTML exports and the navigation between
    the differences (components/DiffPanel/DiffPanel.tsx), with the
    properties the specification states about them and further properties
    of the code.

    JavaScript strings are modelled by [string]; a parsed JSON document by
    [JSValue]; [undefined] and absent optional fields by [None]. *)

From Stdlib Require Import List String Ascii ZArith Bool Arith Lia.
From Stdlib Require Import DecimalString DecimalNat Permutation Finite.
Import ListNotations.
Local Open Scope string_scope.

(** * JavaScript values *)

(** ** The values that JSON documents and deltas are made of *)

(** Numbers are modelled by the integers: a JSON number is a double, and
    the numbers written with a fraction or an exponent are outside this
    embedding. An object lists its own enumerable properties in the order
    in which a [for ... in] loop visits them. *)
Unset Elimination Schemes.
Inductive JSValue : Type :=
| JNull
| JBool (b : bool)
| JNum (n : Z)
| JStr (s : string)
| JArr (items : list JSValue)
| JObj (props : list (string * JSValue)).
Set Elimination Schemes.

Definition string_of_nat (n : nat) : string :=
  NilEmpty.string_of_uint (Nat.to_uint n).

Definition string_of_Z (z : Z) : string :=
  NilEmpty.string_of_int (Z.to_int z).

(** The double quote character, and a text between double quotes. *)
Definition dquote : string := String (ascii_of_nat 34) "".

Definition quoted (s : string) : string := dquote ++ s ++ dquote.

(** [v === 0] *)
Definition is_zero (v : JSValue) : bool :=
  match v with
  | JNum n => Z.eqb n 0
  | _ => false
  end.

(** [!v]: the falsy values among JSON values are null, false, 0 and the
    empty string. *)
Definition js_falsy (v : JSValue) : bool :=
  match v with
  | JNull => true
  | JBool b => negb b
  | JNum n => Z.eqb n 0
  | JStr s => String.eqb s ""
  | JArr _ | JObj _ => false
  end.

(** [!v] for a value that may be [undefined]. *)
Definition js_not (v : option JSValue) : bool :=
  match v with
  | None => true
  | Some x => js_falsy x
  end.

Fixpoint chars_of (s : string) : list string :=
  match s with
  | EmptyString => []
  | String c rest => String c "" :: chars_of rest
  end.

(** Index keys "0", "1", ... paired with the elements, from index [i] on. *)
Fixpoint indexed {A : Type} (i : nat) (xs : list A) : list (string * A) :=
  match xs with
  | [] => []
  | x :: rest => (string_of_nat i, x) :: indexed (S i) rest
  end.

(** The properties a [for (const key in v)] loop visits, with their values. *)
Definition js_members (v : JSValue) : list (string * JSValue) :=
  match v with
  | JObj props => props
  | JArr items => indexed 0 items
  | JStr s => indexed 0 (map JStr (chars_of s))
  | JNull | JBool _ | JNum _ => []
  end.

Fixpoint lookup {A : Type} (key : string) (props : list (string * A)) : option A :=
  match props with
  | [] => None
  | (k, x) :: rest => if String.eqb k key then Some x else lookup key rest
  end.

(** [node?.[key]], over the enumerable members of [node]. Inherited and
    non-enumerable members ([length], the methods) are no JSON values and
    are left out: [traverse] only hands the result down to its recursive
    call and never reads it. *)
Definition js_get (node : option JSValue) (key : string) : option JSValue :=
  match node with
  | None => None
  | Some v => lookup key (js_members v)
  end.

(** ** JSON.stringify on these values *)

Definition hex_digit (n : nat) : string :=
  match n with
  | 10 => "a" | 11 => "b" | 12 => "c" | 13 => "d" | 14 => "e" | 15 => "f"
  | _ => string_of_nat n
  end.

Definition escape_char (c : ascii) : string :=
  let n := nat_of_ascii c in
  if Nat.eqb n 34 then String "\" dquote
  else if Nat.eqb n 92 then "\\"
  else if Nat.eqb n 8 then "\b"
  else if Nat.eqb n 9 then "\t"
  else if Nat.eqb n 10 then "\n"
  else if Nat.eqb n 12 then "\f"
  else if Nat.eqb n 13 then "\r"
  else if Nat.ltb n 32 then "\u00" ++ hex_digit (n / 16) ++ hex_digit (n mod 16)
  else String c "".

Fixpoint escape (s : string) : string :=
  match s with
  | EmptyString => ""
  | String c rest => escape_char c ++ escape rest
  end.

Fixpoint JSON_stringify (v : JSValue) : string :=
  match v with
  | JNull => "null"
  | JBool true => "true"
  | JBool false => "false"
  | JNum n => string_of_Z n
  | JStr s => quoted (escape s)
  | JArr items => "[" ++ String.concat "," (map JSON_stringify items) ++ "]"
  | JObj props =>
      "{" ++ String.concat ","
               (map (fun kv => quoted (escape (fst kv)) ++ ":" ++ JSON_stringify (snd kv)) props)
          ++ "}"
  end.

(** * types/diff.ts *)

(** The fields of a record carry a prefix for their record where their name
    is shared with another record or with a variable of the code ([id],
    [type], [value], [error], [delta], ...). An optional field is an
    [option]; the optional fields that the service never sets ([context] of
    a change, [details] of an error) are left out. Dates and durations are
    numbers of milliseconds. *)

Inductive DiffChangeType : Type := addition | deletion | modification.

Record DiffLineNumber : Type := {
  ln_original : option nat;
  ln_modified : option nat
}.

Record DiffChange : Type := {
  dc_id : string;
  dc_type : DiffChangeType;
  dc_keyPath : string;
  dc_originalValue : option JSValue;
  dc_modifiedValue : option JSValue;
  dc_lineNumber : DiffLineNumber;
  dc_displayText : string
}.

Record DiffSummary : Type := {
  totalChanges : nat;
  additionCount : nat;
  deletionCount : nat;
  modificationCount : nat;
  unchangedKeys : option nat
}.

Record DiffOptions : Type := {
  ignoreWhitespace : bool;
  ignoreArrayOrder : bool;
  ignoreCase : bool;
  maxDifferences : Z;
  formatBeforeDiff : bool
}.

(** [Partial<DiffOptions>]: every option may be left out. *)
Record PartialDiffOptions : Type := {
  opt_ignoreWhitespace : option bool;
  opt_ignoreArrayOrder : option bool;
  opt_ignoreCase : option bool;
  opt_maxDifferences : option Z;
  opt_formatBeforeDiff : option bool
}.

Inductive DiffStatus : Type := idle | calculating | completed | error.

Inductive DiffErrorCode : Type :=
| PARSE_ERROR_ORIGINAL
| PARSE_ERROR_MODIFIED
| CALCULATION_ERROR
| TIMEOUT.

Record DiffError : Type := {
  err_code : DiffErrorCode;
  err_message : string;
  err_timestamp : Z
}.

Record DiffComparison : Type := {
  cmp_id : string;
  originalJSON : string;
  modifiedJSON : string;
  originalParsed : option JSValue;
  modifiedParsed : option JSValue;
  cmp_delta : option JSValue;
  differences : list DiffChange;
  summary : DiffSummary;
  options : DiffOptions;
  status : DiffStatus;
  cmp_error : option DiffError;
  createdAt : Z;
  calculationTime : option Z
}.

Definition DEFAULT_DIFF_OPTIONS : DiffOptions := {|
  ignoreWhitespace := false;
  ignoreArrayOrder := false;
  ignoreCase := false;
  maxDifferences := 500;
  formatBeforeDiff := true
|}.

Definition EMPTY_DIFF_SUMMARY : DiffSummary := {|
  totalChanges := 0;
  additionCount := 0;
  deletionCount := 0;
  modificationCount := 0;
  unchangedKeys := Some 0
|}.

(** A run of the [diff] package: [value] with its [added] and [removed]
    flags. *)
Record Change : Type := {
  ch_value : string;
  ch_added : bool;
  ch_removed : bool
}.

Inductive CharChangeType : Type := cc_add | cc_remove | cc_equal.

Record CharChange : Type := {
  cc_type : CharChangeType;
  cc_value : string;
  cc_startIndex : Z;
  cc_length : nat
}.

(** * services/jsonDiff.ts *)

(** ** parseDeltaToDiffChanges *)

(** The branch of [traverse] for a delta entry that is an array: one change
    is pushed for the arities 1, 2 and 3 (with a trailing 0), and the line
    counter moves on by one; any other arity is passed over. *)
Definition push_change (keyPath : string) (value : list JSValue)
    (changes : list DiffChange) (currentLine : nat) : list DiffChange * nat :=
  match value with
  | [v0] =>
      ((changes ++ [ {| dc_id := "diff-" ++ string_of_nat (List.length changes);
                       dc_type := addition;
                       dc_keyPath := keyPath;
                       dc_originalValue := None;
                       dc_modifiedValue := Some v0;
                       dc_lineNumber := {| ln_original := None; ln_modified := Some currentLine |};
                       dc_displayText := keyPath ++ ": " ++ JSON_stringify v0 ++ " (新增)" |} ])%list,
       S currentLine)
  | [v0; v1] =>
      ((changes ++ [ {| dc_id := "diff-" ++ string_of_nat (List.length changes);
                       dc_type := modification;
                       dc_keyPath := keyPath;
                       dc_originalValue := Some v0;
                       dc_modifiedValue := Some v1;
                       dc_lineNumber := {| ln_original := Some currentLine;
                                           ln_modified := Some currentLine |};
                       dc_displayText :=
                         keyPath ++ ": " ++ JSON_stringify v0 ++ " → " ++ JSON_stringify v1 |} ])%list,
       S currentLine)
  | [v0; v1; v2] =>
      if is_zero v2 then
        ((changes ++ [ {| dc_id := "diff-" ++ string_of_nat (List.length changes);
                         dc_type := deletion;
                         dc_keyPath := keyPath;
                         dc_originalValue := Some v0;
                         dc_modifiedValue := None;
                         dc_lineNumber := {| ln_original := Some currentLine; ln_modified := None |};
                         dc_displayText := keyPath ++ ": " ++ JSON_stringify v0 ++ " (刪除)" |} ])%list,
         S currentLine)
      else (changes, currentLine)
  | _ => (changes, currentLine)
  end.

(** One turn of the loop of [traverse], for the property [key] of the delta
    node; [descend] is the recursive call. *)
Definition visit
    (descend : JSValue -> option JSValue -> option JSValue -> list string ->
               list DiffChange -> nat -> list DiffChange * nat)
    (origNode modNode : option JSValue) (path : list string)
    (key : string) (value : JSValue)
    (changes : list DiffChange) (currentLine : nat) : list DiffChange * nat :=
  if String.eqb key "_t" then (changes, currentLine)
  else
    let currentPath := match path with [] => [key] | _ :: _ => (path ++ [key])%list end in
    let keyPath := String.concat "." currentPath in
    match value with
    | JArr elems => push_change keyPath elems changes currentLine
    | JObj _ =>
        let origChild := js_get origNode key in
        let modChild := js_get modNode key in
        descend value origChild modChild currentPath changes currentLine
    | JNull | JBool _ | JNum _ | JStr _ => (changes, currentLine)
    end.

(** [traverse] threads the array [changes] it pushes to and returns it with
    the line counter. The loop runs over the members of the delta node: the
    properties of an object, the elements of an array under their indices;
    the members of a string are one-character strings, which the loop
    passes over, and null, booleans and numbers have none. *)
Fixpoint traverse (deltaNode : JSValue) (origNode modNode : option JSValue)
    (path : list string) (changes : list DiffChange) (lineNum : nat)
    {struct deltaNode} : list DiffChange * nat :=
  match deltaNode with
  | JObj props =>
      (fix loop (members : list (string * JSValue)) (changes : list DiffChange)
           (currentLine : nat) {struct members} : list DiffChange * nat :=
         match members with
         | [] => (changes, currentLine)
         | (key, value) :: rest =>
             let '(changes', currentLine') :=
               visit traverse origNode modNode path key value changes currentLine in
             loop rest changes' currentLine'
         end) props changes lineNum
  | JArr items =>
      (fix loop (i : nat) (elements : list JSValue) (changes : list DiffChange)
           (currentLine : nat) {struct elements} : list DiffChange * nat :=
         match elements with
         | [] => (changes, currentLine)
         | value :: rest =>
             let '(changes', currentLine') :=
               visit traverse origNode modNode path (string_of_nat i) value changes currentLine in
             loop (S i) rest changes' currentLine'
         end) 0 items changes lineNum
  | JNull | JBool _ | JNum _ | JStr _ => (changes, lineNum)
  end.

Definition parseDeltaToDiffChanges (delta : option JSValue)
    (original modified : option JSValue) : list DiffChange :=
  if js_not delta then []
  else
    match delta with
    | Some d => fst (traverse d original modified [] [] 1)
    | None => []
    end.

(** ** calculateSummary *)

Definition is_type (t : DiffChangeType) (d : DiffChange) : bool :=
  match t, dc_type d with
  | addition, addition | deletion, deletion | modification, modification => true
  | _, _ => false
  end.

Definition calculateSummary (differences : list DiffChange) : DiffSummary := {|
  totalChanges := List.length differences;
  additionCount := List.length (filter (is_type addition) differences);
  deletionCount := List.length (filter (is_type deletion) differences);
  modificationCount := List.length (filter (is_type modification) differences);
  unchangedKeys := None
|}.

(** ** validateJSON and calculateDiffSync *)

Record ValidationResult : Type := {
  isValid : bool;
  vr_parsed : option JSValue;
  vr_error : option string
}.

(** What the clocks read during one call: [performance.now()] at the start
    and at the end, [new Date()] for the error, [Date.now()] for the id and
    [new Date()] for [createdAt]. *)
Record Clock : Type := {
  performance_start : Z;
  performance_end : Z;
  error_Date : Z;
  Date_now : Z;
  created_Date : Z
}.

(** [{ ...defaults, ...options }] *)
Definition spread (defaults : DiffOptions) (options : PartialDiffOptions) : DiffOptions := {|
  ignoreWhitespace := match opt_ignoreWhitespace options with
                      | Some x => x | None => ignoreWhitespace defaults end;
  ignoreArrayOrder := match opt_ignoreArrayOrder options with
                      | Some x => x | None => ignoreArrayOrder defaults end;
  ignoreCase := match opt_ignoreCase options with
                | Some x => x | None => ignoreCase defaults end;
  maxDifferences := match opt_maxDifferences options with
                    | Some x => x | None => maxDifferences defaults end;
  formatBeforeDiff := match opt_formatBeforeDiff options with
                      | Some x => x | None => formatBeforeDiff defaults end
|}.

(** [message || fallback] on a string that may be [undefined]. *)
Definition string_or (message : option string) (fallback : string) : string :=
  match message with
  | Some m => if String.eqb m "" then fallback else m
  | None => fallback
  end.

(** [delta || {}] *)
Definition delta_or_empty (delta : option JSValue) : option JSValue :=
  if js_not delta then Some (JObj []) else delta.

Section Orchestrator.

(** The host's [JSON.parse]: the parsed value, or the message of the
    [SyntaxError] it throws. *)
Variable JSON_parse : string -> string + JSValue.

(** jsondiffpatch's [diff], called with the two parsed values (which may
    be [undefined] by their type) and nothing else; it returns the delta or
    [undefined]. *)
Variable diff : option JSValue -> option JSValue -> option JSValue.

(** [JSON.parse] throws nothing but a [SyntaxError], which is an [Error]:
    the catch branch always takes [error.message]. *)
Definition validateJSON (jsonString : string) : ValidationResult :=
  match JSON_parse jsonString with
  | inr parsed => {| isValid := true; vr_parsed := Some parsed; vr_error := None |}
  | inl errorMessage =>
      {| isValid := false; vr_parsed := None; vr_error := Some errorMessage |}
  end.

Definition calculateDiffSync (clock : Clock) (originalJSON modifiedJSON : string)
    (options : PartialDiffOptions) : DiffComparison :=
  let startTime := performance_start clock in
  let mergedOptions := spread DEFAULT_DIFF_OPTIONS options in
  let originalValidation := validateJSON originalJSON in
  if negb (isValid originalValidation) then
    let error_record := {| err_code := PARSE_ERROR_ORIGINAL;
                           err_message := string_or (vr_error originalValidation) "Invalid JSON";
                           err_timestamp := error_Date clock |} in
    {| cmp_id := string_of_Z (Date_now clock);
       originalJSON := originalJSON;
       modifiedJSON := modifiedJSON;
       originalParsed := None;
       modifiedParsed := None;
       cmp_delta := None;
       differences := [];
       summary := EMPTY_DIFF_SUMMARY;
       options := mergedOptions;
       status := error;
       cmp_error := Some error_record;
       createdAt := created_Date clock;
       calculationTime := None |}
  else
    let modifiedValidation := validateJSON modifiedJSON in
    if negb (isValid modifiedValidation) then
      let error_record := {| err_code := PARSE_ERROR_MODIFIED;
                             err_message := string_or (vr_error modifiedValidation) "Invalid JSON";
                             err_timestamp := error_Date clock |} in
      {| cmp_id := string_of_Z (Date_now clock);
         originalJSON := originalJSON;
         modifiedJSON := modifiedJSON;
         originalParsed := None;
         modifiedParsed := None;
         cmp_delta := None;
         differences := [];
         summary := EMPTY_DIFF_SUMMARY;
         options := mergedOptions;
         status := error;
         cmp_error := Some error_record;
         createdAt := created_Date clock;
         calculationTime := None |}
    else
      let originalParsed' := vr_parsed originalValidation in
      let modifiedParsed' := vr_parsed modifiedValidation in
      let delta := diff originalParsed' modifiedParsed' in
      let differences' :=
        parseDeltaToDiffChanges (delta_or_empty delta) originalParsed' modifiedParsed' in
      let summary' := calculateSummary differences' in
      let calculationTime' := (performance_end clock - startTime)%Z in
      {| cmp_id := string_of_Z (Date_now clock);
         originalJSON := originalJSON;
         modifiedJSON := modifiedJSON;
         originalParsed := originalParsed';
         modifiedParsed := modifiedParsed';
         cmp_delta := delta;
         differences := differences';
         summary := summary';
         options := mergedOptions;
         status := completed;
         cmp_error := None;
         createdAt := created_Date clock;
         calculationTime := Some calculationTime' |}.

End Orchestrator.

(** ** convertToCharChange and calculateCharLevelDiff *)

Definition convertToCharChange (change : Change) (startIndex : Z) : CharChange := {|
  cc_type := if ch_added change then cc_add
             else if ch_removed change then cc_remove else cc_equal;
  cc_value := ch_value change;
  cc_startIndex := if ch_added change then (-1)%Z else startIndex;
  cc_length := String.length (ch_value change)
|}.

(** The loop of [calculateCharLevelDiff] over the runs left, with the
    array pushed to and the index into the original text. *)
Fixpoint convert_runs (changes : list Change) (charChanges : list CharChange)
    (currentIndex : Z) : list CharChange :=
  match changes with
  | [] => charChanges
  | change :: rest =>
      let charChanges' := (charChanges ++ [convertToCharChange change currentIndex])%list in
      let currentIndex' :=
        if negb (ch_added change)
        then (currentIndex + Z.of_nat (String.length (ch_value change)))%Z
        else currentIndex in
      convert_runs rest charChanges' currentIndex'
  end.

Section CharLevel.

(** [diffChars] of the [diff] package. *)
Variable diffChars : string -> string -> list Change.

Definition calculateCharLevelDiff (originalText modifiedText : string) : list CharChange :=
  let changes := diffChars originalText modifiedText in
  convert_runs changes [] 0%Z.

End CharLevel.

(** ** calculateMultiLineCharDiff *)

(** The line feed, as a character and as a text. *)
Definition LF : ascii := "010"%char.

Definition newline : string := String LF "".

(** [s.split(sep)] for a separator of one character: the segments between
    the separators, of which there is always one. *)
Fixpoint js_split (sep : ascii) (s : string) : list string :=
  match s with
  | EmptyString => [""]
  | String c rest =>
      if Ascii.eqb c sep then "" :: js_split sep rest
      else match js_split sep rest with
           | segment :: segments => String c segment :: segments
           | [] => [String c ""]
           end
  end.

(** [s.endsWith(suffix)] *)
Definition js_endsWith (s suffix : string) : bool :=
  (String.length suffix <=? String.length s)%nat
  && String.eqb
       (substring (String.length s - String.length suffix) (String.length suffix) s)
       suffix.

(** [CharLevelDiffResult] of types/diff.ts. *)
Record CharLevelDiffResult : Type := {
  lineIndex : nat;
  originalLine : string;
  modifiedLine : string;
  charChanges : list CharChange;
  hasChanges : bool
}.

(** [c.type !== 'equal'] *)
Definition not_equal_type (c : CharChange) : bool :=
  match cc_type c with
  | cc_equal => false
  | cc_add | cc_remove => true
  end.

Section MultiLine.

(** [diffLines] and [diffChars] of the [diff] package. *)
Variable diffLines : string -> string -> list Change.
Variable diffChars : string -> string -> list Change.

(** The loop over the lines of an added chunk, with the array pushed to and
    the index into the modified lines. *)
Fixpoint added_lines (lines : list string) (results : list CharLevelDiffResult)
    (modifiedLineIndex : nat) : list CharLevelDiffResult * nat :=
  match lines with
  | [] => (results, modifiedLineIndex)
  | line :: rest =>
      added_lines rest
        (results ++ [ {| lineIndex := modifiedLineIndex;
                         originalLine := "";
                         modifiedLine := line;
                         charChanges := [ {| cc_type := cc_add;
                                             cc_value := line;
                                             cc_startIndex := -1;
                                             cc_length := String.length line |} ];
                         hasChanges := true |} ])%list
        (S modifiedLineIndex)
  end.

(** The loop over the lines of a removed chunk. *)
Fixpoint removed_lines (lines : list string) (results : list CharLevelDiffResult)
    (originalLineIndex : nat) : list CharLevelDiffResult * nat :=
  match lines with
  | [] => (results, originalLineIndex)
  | line :: rest =>
      removed_lines rest
        (results ++ [ {| lineIndex := originalLineIndex;
                         originalLine := line;
                         modifiedLine := "";
                         charChanges := [ {| cc_type := cc_remove;
                                             cc_value := line;
                                             cc_startIndex := 0;
                                             cc_length := String.length line |} ];
                         hasChanges := true |} ])%list
        (S originalLineIndex)
  end.

(** The loop over the lines of a chunk that is neither added nor removed:
    the lines compared are those of the two texts at the two indices, with
    [''] and [line] where a text has no line, or an empty one, there. *)
Fixpoint unchanged_lines (originalLines modifiedLines : list string)
    (lines : list string) (results : list CharLevelDiffResult)
    (originalLineIndex modifiedLineIndex : nat)
    : list CharLevelDiffResult * nat * nat :=
  match lines with
  | [] => (results, originalLineIndex, modifiedLineIndex)
  | line :: rest =>
      let originalLine' := string_or (nth_error originalLines originalLineIndex) "" in
      let modifiedLine' := string_or (nth_error modifiedLines modifiedLineIndex) line in
      let result :=
        if String.eqb originalLine' modifiedLine' then
          {| lineIndex := originalLineIndex;
             originalLine := originalLine';
             modifiedLine := modifiedLine';
             charChanges := [ {| cc_type := cc_equal;
                                 cc_value := originalLine';
                                 cc_startIndex := 0;
                                 cc_length := String.length originalLine' |} ];
             hasChanges := false |}
        else
          let charChanges' := calculateCharLevelDiff diffChars originalLine' modifiedLine' in
          {| lineIndex := originalLineIndex;
             originalLine := originalLine';
             modifiedLine := modifiedLine';
             charChanges := charChanges';
             hasChanges := existsb not_equal_type charChanges' |} in
      unchanged_lines originalLines modifiedLines rest (results ++ [result])%list
        (S originalLineIndex) (S modifiedLineIndex)
  end.

(** [lineChange.value.split('\n').filter(line => line !== '' ||
    lineChange.value.endsWith('\n'))] *)
Definition lines_of (lineChange : Change) : list string :=
  filter (fun line => negb (String.eqb line "") || js_endsWith (ch_value lineChange) newline)
    (js_split LF (ch_value lineChange)).

(** The loop over the chunks of the line diff. *)
Fixpoint line_chunks (originalLines modifiedLines : list string)
    (lineChanges : list Change) (results : list CharLevelDiffResult)
    (originalLineIndex modifiedLineIndex : nat) : list CharLevelDiffResult :=
  match lineChanges with
  | [] => results
  | lineChange :: rest =>
      let lines := lines_of lineChange in
      if ch_added lineChange then
        let '(results', modifiedLineIndex') := added_lines lines results modifiedLineIndex in
        line_chunks originalLines modifiedLines rest results'
          originalLineIndex modifiedLineIndex'
      else if ch_removed lineChange then
        let '(results', originalLineIndex') := removed_lines lines results originalLineIndex in
        line_chunks originalLines modifiedLines rest results'
          originalLineIndex' modifiedLineIndex
      else
        let '(results', originalLineIndex', modifiedLineIndex') :=
          unchanged_lines originalLines modifiedLines lines results
            originalLineIndex modifiedLineIndex in
        line_chunks originalLines modifiedLines rest results'
          originalLineIndex' modifiedLineIndex'
  end.

Definition calculateMultiLineCharDiff (originalText modifiedText : string)
    : list CharLevelDiffResult :=
  let originalLines := js_split LF originalText in
  let modifiedLines := js_split LF modifiedText in
  let lineChanges := diffLines originalText modifiedText in
  line_chunks originalLines modifiedLines lineChanges [] 0 0.

End MultiLine.

(** * services/diffExport.ts *)

Inductive PatchOp : Type := op_add | op_remove | op_replace | op_move | op_copy | op_test.

Record JSONPatchOperation : Type := {
  op : PatchOp;
  path : string;
  patch_value : option JSValue;
  from : option string
}.

Definition JSONPatch : Type := list JSONPatchOperation.

Section PatchExport.

(** [compare] of fast-json-patch. *)
Variable compare : option JSValue -> option JSValue -> JSONPatch.

Definition generateJSONPatch (comparison : DiffComparison) : JSONPatch :=
  if js_not (originalParsed comparison) || js_not (modifiedParsed comparison) then []
  else
    let patch := compare (originalParsed comparison) (modifiedParsed comparison) in
    patch.

End PatchExport.

(** ** formatAsText *)

(** The string that a [DiffChangeType] is in the code. *)
Definition type_name (t : DiffChangeType) : string :=
  match t with
  | addition => "addition"
  | deletion => "deletion"
  | modification => "modification"
  end.

(** [s.toUpperCase()], on the letters a to z: the names of the types have
    no other characters. *)
Definition upper (c : ascii) : ascii :=
  if ((97 <=? nat_of_ascii c) && (nat_of_ascii c <=? 122))%nat
  then ascii_of_nat (nat_of_ascii c - 32)
  else c.

Fixpoint toUpperCase (s : string) : string :=
  match s with
  | EmptyString => EmptyString
  | String c rest => String (upper c) (toUpperCase rest)
  end.

(** [s.repeat(count)] *)
Fixpoint js_repeat (s : string) (count : nat) : string :=
  match count with
  | 0 => ""
  | S rest => s ++ js_repeat s rest
  end.

(** The callback of [comparison.differences.forEach], which pushes three
    lines for the change at [index], and the loop of [forEach] over the
    changes from [index] on, with the array [lines] pushed to. *)
Fixpoint push_entries (changes : list DiffChange) (index : nat) (lines : list string)
    : list string :=
  match changes with
  | [] => lines
  | change :: rest =>
      let lines := (lines ++ [ ("[" ++ string_of_nat (index + 1) ++ "] "
                               ++ toUpperCase (type_name (dc_type change)) ++ ": "
                               ++ dc_keyPath change)%string ])%list in
      let lines := (lines ++ [ ("    " ++ dc_displayText change)%string ])%list in
      let lines := (lines ++ [ "" ])%list in
      push_entries rest (S index) lines
  end.

(** The array [lines] of [formatAsText] before it is joined. *)
Definition formatAsText_lines (comparison : DiffComparison) : list string :=
  let lines := [] in
  let lines := (lines ++ [ js_repeat "=" 60 ])%list in
  let lines := (lines ++ [ "JSON Diff Result" ])%list in
  let lines := (lines ++ [ js_repeat "=" 60 ])%list in
  let lines := (lines ++ [ "" ])%list in
  let lines :=
    (lines ++ [ ("Total Changes: " ++ string_of_nat (totalChanges (summary comparison)))%string ])%list in
  let lines :=
    (lines ++ [ ("  Additions: " ++ string_of_nat (additionCount (summary comparison)))%string ])%list in
  let lines :=
    (lines ++ [ ("  Deletions: " ++ string_of_nat (deletionCount (summary comparison)))%string ])%list in
  let lines :=
    (lines ++ [ ("  Modifications: "
                ++ string_of_nat (modificationCount (summary comparison)))%string ])%list in
  let lines := (lines ++ [ "" ])%list in
  let lines := (lines ++ [ js_repeat "-" 60 ])%list in
  push_entries (differences comparison) 0 lines.

Definition formatAsText (comparison : DiffComparison) : string :=
  String.concat newline (formatAsText_lines comparison).

(** ** exportAsHTML *)

(** A [Blob]: its parts and its type. *)
Record Blob : Type := {
  blob_parts : list string;
  blob_type : string
}.

(** The template of one change. *)
Definition change_block (change : DiffChange) : string :=
  "
    <div class=" ++ dquote ++ "change " ++ type_name (dc_type change) ++ dquote ++ ">
      <div class=" ++ dquote ++ "change-type" ++ dquote ++ ">" ++ type_name (dc_type change) ++ "</div>
      <div class=" ++ dquote ++ "change-path" ++ dquote ++ ">" ++ dc_keyPath change ++ "</div>
      <div class=" ++ dquote ++ "change-details" ++ dquote ++ ">" ++ dc_displayText change ++ "</div>
    </div>
  ".

(** [exportAsHTML]; [generated] is what [new Date().toLocaleString('zh-TW')]
    returns when the template is filled in. The promise it returns is
    resolved with the blob. *)
Definition exportAsHTML (generated : string) (comparison : DiffComparison) : Blob :=
  let htmlContent :=
    "
<!DOCTYPE html>
<html lang=" ++ dquote ++ "zh-TW" ++ dquote ++ ">
<head>
  <meta charset=" ++ dquote ++ "UTF-8" ++ dquote ++ ">
  <meta name=" ++ dquote ++ "viewport" ++ dquote ++ " content=" ++ dquote ++ "width=device-width, initial-scale=1.0" ++ dquote ++ ">
  <title>JSON Diff Result</title>
  <style>
    body {
      font-family: 'Segoe UI', Tahoma, Geneva, Verdana, sans-serif;
      max-width: 1200px;
      margin: 0 auto;
      padding: 20px;
      background-color: #f5f5f5;
    }
    .header {
      background-color: #2c3e50;
      color: white;
      padding: 20px;
      border-radius: 8px;
      margin-bottom: 20px;
    }
    .summary {
      background-color: white;
      padding: 20px;
      border-radius: 8px;
      margin-bottom: 20px;
      box-shadow: 0 2px 4px rgba(0,0,0,0.1);
    }
    .change {
      background-color: white;
      padding: 15px;
      margin-bottom: 10px;
      border-radius: 4px;
      border-left: 4px solid #ccc;
    }
    .change.addition {
      border-left-color: #28a745;
      background-color: #d4f4dd;
    }
    .change.deletion {
      border-left-color: #dc3545;
      background-color: #ffd7d5;
    }
    .change.modification {
      border-left-color: #ffc107;
      background-color: #fff3cd;
    }
    .change-type {
      font-weight: bold;
      text-transform: uppercase;
      font-size: 12px;
      margin-bottom: 5px;
    }
    .change-path {
      font-family: 'Courier New', monospace;
      color: #333;
      margin-bottom: 5px;
    }
    .change-details {
      color: #666;
      font-size: 14px;
    }
  </style>
</head>
<body>
  <div class=" ++ dquote ++ "header" ++ dquote ++ ">
    <h1>JSON Diff Result</h1>
    <p>Generated: " ++ generated ++ "</p>
  </div>

  <div class=" ++ dquote ++ "summary" ++ dquote ++ ">
    <h2>Summary</h2>
    <p>Total Changes: <strong>" ++ string_of_nat (totalChanges (summary comparison)) ++ "</strong></p>
    <ul>
      <li>Additions: " ++ string_of_nat (additionCount (summary comparison)) ++ "</li>
      <li>Deletions: " ++ string_of_nat (deletionCount (summary comparison)) ++ "</li>
      <li>Modifications: " ++ string_of_nat (modificationCount (summary comparison)) ++ "</li>
    </ul>
  </div>

  <h2>Changes</h2>
  "
    ++ String.concat "" (map change_block (differences comparison))
    ++ "
</body>
</html>
  " in
  {| blob_parts := [htmlContent]; blob_type := "text/html" |}.

(** * components/DiffPanel/DiffPanel.tsx *)

(** ** The navigation between the differences *)

(** [xs[i]] for an integer [i]: [undefined] outside the array. *)
Definition js_at {A : Type} (xs : list A) (i : Z) : option A :=
  if (i <? 0)%Z then None else nth_error xs (Z.to_nat i).

(** What a navigation handler has done when it is left: nothing, or it has
    set [currentDiffIndex] to [index] and read the id of the difference
    there, to scroll to the line that carries it. Reading the id of no
    difference throws a TypeError, after the index is set. The search of
    the document for the line and the scrolling are left out. *)
Inductive Navigated : Type :=
| nothing_done
| scrolled_to (index : Z) (diffId : string)
| thrown_TypeError (index : Z).

Definition navigateToNext (comparison : option DiffComparison) (currentDiffIndex : Z)
    : Navigated :=
  match comparison with
  | None => nothing_done
  | Some comparison =>
      if (List.length (differences comparison) =? 0)%nat then nothing_done
      else
        let nextIndex :=
          Z.rem (currentDiffIndex + 1) (Z.of_nat (List.length (differences comparison))) in
        match js_at (differences comparison) nextIndex with
        | Some change => scrolled_to nextIndex (dc_id change)
        | None => thrown_TypeError nextIndex
        end
  end.

Definition navigateToPrevious (comparison : option DiffComparison) (currentDiffIndex : Z)
    : Navigated :=
  match comparison with
  | None => nothing_done
  | Some comparison =>
      if (List.length (differences comparison) =? 0)%nat then nothing_done
      else
        let prevIndex :=
          if (currentDiffIndex =? 0)%Z
          then (Z.of_nat (List.length (differences comparison)) - 1)%Z
          else (currentDiffIndex - 1)%Z in
        match js_at (differences comparison) prevIndex with
        | Some change => scrolled_to prevIndex (dc_id change)
        | None => thrown_TypeError prevIndex
        end
  end.

(** The effect that resets the index when the comparison changes: the
    index it sets. *)
Definition reset_index (comparison : option DiffComparison) : Z :=
  match comparison with
  | Some comparison =>
      if (0 <? List.length (differences comparison))%nat then 0%Z else (-1)%Z
  | None => (-1)%Z
  end.

(** * The imported packages and the host *)

(** ** Objects as the host builds them *)

Definition has_key {A : Type} (key : string) (props : list (string * A)) : bool :=
  match lookup key props with
  | Some _ => true
  | None => false
  end.

(** A property key that is an array index ("0", "7", "42", below 2^32 - 1):
    such keys are enumerated first, in ascending order. *)
Fixpoint digits_value (acc : N) (s : string) : option N :=
  match s with
  | EmptyString => Some acc
  | String c rest =>
      let n := nat_of_ascii c in
      if (48 <=? n)%nat && (n <=? 57)%nat
      then digits_value (10 * acc + N.of_nat (n - 48)) rest
      else None
  end.

Definition index_of_key (key : string) : option N :=
  match key with
  | EmptyString => None
  | String c rest =>
      if Ascii.eqb c "0" && negb (String.eqb rest "") then None
      else
        match digits_value 0 key with
        | Some n => if (n <? 4294967295)%N then Some n else None
        | None => None
        end
  end.

(** [obj[key] = value]: an existing property keeps its place; a new index
    key goes before the first larger index key or the first other key; any
    other new key goes last. *)
Fixpoint js_set (key : string) (value : JSValue) (props : list (string * JSValue))
    : list (string * JSValue) :=
  match props with
  | [] => [(key, value)]
  | (k, x) :: rest =>
      if String.eqb k key then (k, value) :: rest
      else if has_key key rest then (k, x) :: js_set key value rest
      else
        match index_of_key key, index_of_key k with
        | Some n, Some m =>
            if (n <? m)%N then (key, value) :: props else (k, x) :: js_set key value rest
        | Some _, None => (key, value) :: props
        | None, _ => (k, x) :: js_set key value rest
        end
  end.

(** The object that results from setting the entries one after another. *)
Definition js_object (entries : list (string * JSValue)) : list (string * JSValue) :=
  fold_left (fun props kv => js_set (fst kv) (snd kv) props) entries [].

(** ** The structural delta engine *)

(** Deep structural equality: same type and same scalar, arrays of equal
    length with equal elements in order, objects with as many members and
    every member of the one equal to a member of the other under its key. *)
Fixpoint deep_equal (a b : JSValue) {struct a} : bool :=
  match a, b with
  | JNull, JNull => true
  | JBool x, JBool y => Bool.eqb x y
  | JNum x, JNum y => Z.eqb x y
  | JStr x, JStr y => String.eqb x y
  | JArr xs, JArr ys =>
      (fix pairwise (xs ys : list JSValue) {struct xs} : bool :=
         match xs, ys with
         | [], [] => true
         | x :: xs', y :: ys' => deep_equal x y && pairwise xs' ys'
         | _, _ => false
         end) xs ys
  | JObj ps, JObj qs =>
      Nat.eqb (List.length ps) (List.length qs)
      && forallb (fun p => existsb (fun q => String.eqb (fst p) (fst q)
                                            && deep_equal (snd p) (snd q)) qs) ps
  | _, _ => false
  end.

(** The practical cap on the depth of the recursion. *)
Definition MAX_DEPTH : nat := 1000.

(** The keys of both sides: those of the original, then those only the
    modified side has. *)
Definition union_keys (lo ro : list (string * JSValue)) : list string :=
  (map fst lo ++ map fst (filter (fun kv => negb (has_key (fst kv) lo)) ro))%list.

(** One entry per key whose two sides differ, [child] being the delta of
    the two sides of a key (either may be absent). *)
Definition container_delta (child : option JSValue -> option JSValue -> option JSValue)
    (lo ro : list (string * JSValue)) : list (string * JSValue) :=
  flat_map (fun key => match child (lookup key lo) (lookup key ro) with
                       | Some d => [(key, d)]
                       | None => []
                       end)
           (union_keys lo ro).

(** Modelled from the spec: jsondiffpatch's [diff] is imported by
    jsonDiff.ts and is not part of the sources; this is the algorithm of
    section 4.2. A side that is absent gives an addition [[new]] or a
    deletion [[old, 0, 0]]; deeply equal values give no delta; two objects
    give a nested delta over the union of their keys; two arrays are
    aligned by index and their delta carries the marker [_t]; any other
    pair, and any pair below the depth cap, gives [[old, new]]. *)
Fixpoint diff_at (depth : nat) (left right : option JSValue) {struct depth}
    : option JSValue :=
  match left, right with
  | None, None => None
  | None, Some r => Some (JArr [r])
  | Some l, None => Some (JArr [l; JNum 0; JNum 0])
  | Some l, Some r =>
      if deep_equal l r then None
      else
        match depth with
        | O => Some (JArr [l; r])
        | S d =>
            match l, r with
            | JObj lo, JObj ro => Some (JObj (js_object (container_delta (diff_at d) lo ro)))
            | JArr la, JArr ra =>
                Some (JObj (js_object
                              (("_t", JStr "a")
                               :: container_delta (diff_at d) (indexed 0 la) (indexed 0 ra))))
            | _, _ => Some (JArr [l; r])
            end
        end
  end.

(** Modelled from the spec: the entry point of the delta engine of section
    4.2, [diff(original, modified)], which jsonDiff.ts imports from
    jsondiffpatch. *)
Definition jsondiffpatch_diff (left right : option JSValue) : option JSValue :=
  diff_at MAX_DEPTH left right.

(** ** A minimal edit script between two strings *)

Inductive Edit : Type :=
| Keep (c : ascii)
| Delete (c : ascii)
| Insert (c : ascii).

Definition edit_cost (script : list Edit) : nat :=
  List.length (filter (fun e => match e with Keep _ => false | _ => true end) script).

(** The cheaper of a script that deletes first and one that inserts first;
    deleting wins a tie, so that removals precede additions. *)
Definition cheaper (deleting inserting : list Edit) : list Edit :=
  if (edit_cost inserting <? edit_cost deleting)%nat then inserting else deleting.

Fixpoint insert_all (b : string) : list Edit :=
  match b with
  | EmptyString => []
  | String y b' => Insert y :: insert_all b'
  end.

(** The scripts from the empty text to [b] and to each of its suffixes. *)
Fixpoint first_row (b : string) : list (list Edit) :=
  match b with
  | EmptyString => [[]]
  | String _ b' => insert_all b :: first_row b'
  end.

(** From the scripts of [a] to the suffixes of [b] ([prev]), those of
    [String x a]: equal heads are kept, otherwise the cheaper of deleting
    [x] and inserting the head of [b] is taken. *)
Fixpoint next_row (x : ascii) (b : string) (prev : list (list Edit)) {struct b}
    : list (list Edit) :=
  match b, prev with
  | String y b', p :: prev' =>
      let below := next_row x b' prev' in
      (if Ascii.eqb x y then Keep x :: hd [] prev'
       else cheaper (Delete x :: p) (Insert y :: hd [] below)) :: below
  | EmptyString, p :: _ => [Delete x :: p]
  | _, [] => []
  end.

Fixpoint script_rows (a b : string) : list (list Edit) :=
  match a with
  | EmptyString => first_row b
  | String x a' => next_row x b (script_rows a' b)
  end.

Definition edit_script (a b : string) : list Edit := hd [] (script_rows a b).

Definition run_of (e : Edit) : Change :=
  match e with
  | Keep c => {| ch_value := String c ""; ch_added := false; ch_removed := false |}
  | Delete c => {| ch_value := String c ""; ch_added := false; ch_removed := true |}
  | Insert c => {| ch_value := String c ""; ch_added := true; ch_removed := false |}
  end.

Definition same_kind (x y : Change) : bool :=
  Bool.eqb (ch_added x) (ch_added y) && Bool.eqb (ch_removed x) (ch_removed y).

(** Consecutive edits of one kind are joined into one run. *)
Fixpoint runs (script : list Edit) : list Change :=
  match script with
  | [] => []
  | e :: rest =>
      match runs rest with
      | r :: rs =>
          if same_kind (run_of e) r
          then {| ch_value := ch_value (run_of e) ++ ch_value r;
                  ch_added := ch_added r;
                  ch_removed := ch_removed r |} :: rs
          else run_of e :: r :: rs
      | [] => [run_of e]
      end
  end.

(** Modelled from the spec: [diffChars] is imported by jsonDiff.ts from the
    [diff] package and is not part of the sources; this is contract A of
    section 4.5, a minimal edit script at character granularity given as
    equal, removed and added runs. *)
Definition diffChars_minimal (a b : string) : list Change :=
  runs (edit_script a b).

(** ** The host's JSON.parse on texts *)

Inductive ParseStep (A : Type) : Type :=
| Parsed (x : A) (rest : string)
| Unexpected (rest : string).
Arguments Parsed {A} x rest.
Arguments Unexpected {A} rest.

Definition is_whitespace (c : ascii) : bool :=
  let n := nat_of_ascii c in
  Nat.eqb n 32 || Nat.eqb n 9 || Nat.eqb n 10 || Nat.eqb n 13.

Fixpoint skip_whitespace (s : string) : string :=
  match s with
  | String c rest => if is_whitespace c then skip_whitespace rest else s
  | EmptyString => s
  end.

Fixpoint expect (literal s : string) : ParseStep unit :=
  match literal with
  | EmptyString => Parsed tt s
  | String c literal' =>
      match s with
      | String d s' => if Ascii.eqb c d then expect literal' s' else Unexpected s
      | EmptyString => Unexpected s
      end
  end.

Definition digit_of (c : ascii) : option Z :=
  let n := nat_of_ascii c in
  if (48 <=? n)%nat && (n <=? 57)%nat then Some (Z.of_nat (n - 48)) else None.

Fixpoint parse_digits (acc : Z) (s : string) : Z * string :=
  match s with
  | String c rest =>
      match digit_of c with
      | Some d => parse_digits (10 * acc + d) rest
      | None => (acc, s)
      end
  | EmptyString => (acc, s)
  end.

(** Integer literals. A fraction or an exponent is outside the modelled
    numbers and is reported at its first character. *)
Definition parse_number (s : string) : ParseStep JSValue :=
  let '(negative, s1) :=
    match s with
    | String c rest => if Ascii.eqb c "-" then (true, rest) else (false, s)
    | EmptyString => (false, s)
    end in
  match s1 with
  | EmptyString => Unexpected s1
  | String c rest =>
      match digit_of c with
      | None => Unexpected s1
      | Some d =>
          let '(n, rest') := if Z.eqb d 0 then (0%Z, rest) else parse_digits d rest in
          match rest' with
          | String e _ =>
              if Ascii.eqb e "." || Ascii.eqb e "e" || Ascii.eqb e "E"
              then Unexpected rest'
              else Parsed (JNum (if negative then - n else n)) rest'
          | EmptyString => Parsed (JNum (if negative then - n else n)) rest'
          end
      end
  end.

Definition hex_of (c : ascii) : option nat :=
  let n := nat_of_ascii c in
  if (48 <=? n)%nat && (n <=? 57)%nat then Some (n - 48)
  else if (97 <=? n)%nat && (n <=? 102)%nat then Some (n - 87)
  else if (65 <=? n)%nat && (n <=? 70)%nat then Some (n - 55)
  else None.

Definition unescape (c : ascii) : option ascii :=
  let n := nat_of_ascii c in
  if Nat.eqb n 34 || Nat.eqb n 92 || Nat.eqb n 47 then Some c
  else if Ascii.eqb c "b" then Some (ascii_of_nat 8)
  else if Ascii.eqb c "f" then Some (ascii_of_nat 12)
  else if Ascii.eqb c "n" then Some (ascii_of_nat 10)
  else if Ascii.eqb c "r" then Some (ascii_of_nat 13)
  else if Ascii.eqb c "t" then Some (ascii_of_nat 9)
  else None.

(** The characters of a string literal after its opening quote. A \u
    escape of a character above 127 is outside the modelled strings and is
    reported at the escape. *)
Fixpoint parse_string_body (acc s : string) {struct s} : ParseStep string :=
  match s with
  | EmptyString => Unexpected s
  | String c rest =>
      if Nat.eqb (nat_of_ascii c) 34 then Parsed acc rest
      else if Nat.eqb (nat_of_ascii c) 92 then
        match rest with
        | EmptyString => Unexpected rest
        | String e rest' =>
            match unescape e with
            | Some ch => parse_string_body (acc ++ String ch "") rest'
            | None =>
                match rest' with
                | String h1 (String h2 (String h3 (String h4 rest''))) =>
                    match hex_of h1, hex_of h2, hex_of h3, hex_of h4 with
                    | Some 0, Some 0, Some a, Some b =>
                        if Ascii.eqb e "u" && (a <? 8)%nat
                        then parse_string_body (acc ++ String (ascii_of_nat (16 * a + b)) "") rest''
                        else Unexpected rest
                    | _, _, _, _ => Unexpected rest
                    end
                | _ => Unexpected rest
                end
            end
        end
      else if (nat_of_ascii c <? 32)%nat then Unexpected s
      else parse_string_body (acc ++ String c "") rest
  end.

(** A value, then the elements of an array after [[], then the members of
    an object after [{]; [fuel] bounds the number of nested calls. *)
Fixpoint parse_value (fuel : nat) (s : string) {struct fuel} : ParseStep JSValue :=
  match fuel with
  | O => Unexpected s
  | S fuel' =>
      let s := skip_whitespace s in
      match s with
      | EmptyString => Unexpected s
      | String c rest =>
          if Ascii.eqb c "n" then
            match expect "null" s with
            | Parsed _ r => Parsed JNull r | Unexpected r => Unexpected r end
          else if Ascii.eqb c "t" then
            match expect "true" s with
            | Parsed _ r => Parsed (JBool true) r | Unexpected r => Unexpected r end
          else if Ascii.eqb c "f" then
            match expect "false" s with
            | Parsed _ r => Parsed (JBool false) r | Unexpected r => Unexpected r end
          else if Nat.eqb (nat_of_ascii c) 34 then
            match parse_string_body "" rest with
            | Parsed str r => Parsed (JStr str) r | Unexpected r => Unexpected r end
          else if Ascii.eqb c "[" then
            match skip_whitespace rest with
            | String d r =>
                if Ascii.eqb d "]" then Parsed (JArr []) r
                else parse_elements fuel' [] (String d r)
            | EmptyString => Unexpected EmptyString
            end
          else if Ascii.eqb c "{" then
            match skip_whitespace rest with
            | String d r =>
                if Ascii.eqb d "}" then Parsed (JObj []) r
                else parse_members fuel' [] (String d r)
            | EmptyString => Unexpected EmptyString
            end
          else parse_number s
      end
  end
with parse_elements (fuel : nat) (acc : list JSValue) (s : string) {struct fuel}
    : ParseStep JSValue :=
  match fuel with
  | O => Unexpected s
  | S fuel' =>
      match parse_value fuel' s with
      | Unexpected r => Unexpected r
      | Parsed v r =>
          match skip_whitespace r with
          | String d r' =>
              if Ascii.eqb d "," then parse_elements fuel' (acc ++ [v])%list r'
              else if Ascii.eqb d "]" then Parsed (JArr (acc ++ [v])%list) r'
              else Unexpected (String d r')
          | EmptyString => Unexpected EmptyString
          end
      end
  end
with parse_members (fuel : nat) (acc : list (string * JSValue)) (s : string) {struct fuel}
    : ParseStep JSValue :=
  match fuel with
  | O => Unexpected s
  | S fuel' =>
      match skip_whitespace s with
      | EmptyString => Unexpected EmptyString
      | String q r0 =>
          if negb (Nat.eqb (nat_of_ascii q) 34) then Unexpected (String q r0)
          else
            match parse_string_body "" r0 with
            | Unexpected r => Unexpected r
            | Parsed key r1 =>
                match skip_whitespace r1 with
                | EmptyString => Unexpected EmptyString
                | String colon r2 =>
                    if negb (Ascii.eqb colon ":") then Unexpected (String colon r2)
                    else
                      match parse_value fuel' r2 with
                      | Unexpected r => Unexpected r
                      | Parsed v r3 =>
                          match skip_whitespace r3 with
                          | String d r' =>
                              if Ascii.eqb d "," then parse_members fuel' (js_set key v acc) r'
                              else if Ascii.eqb d "}" then Parsed (JObj (js_set key v acc)) r'
                              else Unexpected (String d r')
                          | EmptyString => Unexpected EmptyString
                          end
                      end
                end
            end
      end
  end.

(** The message of the [SyntaxError] for the input left at the unexpected
    token (V8's wording). *)
Definition syntax_error (text rest : string) : string :=
  match rest with
  | EmptyString => "Unexpected end of JSON input"
  | String c _ =>
      "Unexpected token " ++ String c "" ++ " in JSON at position "
        ++ string_of_nat (String.length text - String.length rest)
  end.

(** [JSON.parse(text)] for the texts whose numbers are integer literals and
    whose string escapes stay below character 128: the value, or the message
    of the error thrown. It supplies the concrete runs below; the theorems
    about the orchestrator hold for any [JSON_parse]. *)
Definition JSON_parse_host (text : string) : string + JSValue :=
  match parse_value (2 * String.length text + 2) text with
  | Unexpected rest => inl (syntax_error text rest)
  | Parsed v rest =>
      match skip_whitespace rest with
      | EmptyString => inr v
      | String c r => inl (syntax_error text (String c r))
      end
  end.

(** * The vocabulary of the properties *)

(** ** Inputs of the concrete runs *)

(** The default argument [options = {}]. *)
Definition no_options : PartialDiffOptions := {|
  opt_ignoreWhitespace := None;
  opt_ignoreArrayOrder := None;
  opt_ignoreCase := None;
  opt_maxDifferences := None;
  opt_formatBeforeDiff := None
|}.

(** The options object [{ maxDifferences: 1 }]. *)
Definition at_most_one : PartialDiffOptions := {|
  opt_ignoreWhitespace := None;
  opt_ignoreArrayOrder := None;
  opt_ignoreCase := None;
  opt_maxDifferences := Some 1%Z;
  opt_formatBeforeDiff := None
|}.

(** Clock readings for the concrete runs. *)
Definition sample_clock : Clock := {|
  performance_start := 10;
  performance_end := 12;
  error_Date := 1700000000000;
  Date_now := 1700000000000;
  created_Date := 1700000000000
|}.

(** A patch generator for the concrete run: the patch that replaces the
    whole document. *)
Definition replace_document (original modified : option JSValue) : JSONPatch :=
  [ {| op := op_replace; path := ""; patch_value := modified; from := None |} ].

(** The text [{"a":1,"b":2}]. *)
Definition text_a1_b2 : string :=
  "{" ++ quoted "a" ++ ":1," ++ quoted "b" ++ ":2}".

(** The texts [{"a":1}] and [{"a":2}]. *)
Definition text_a1 : string := "{" ++ quoted "a" ++ ":1}".

Definition text_a2 : string := "{" ++ quoted "a" ++ ":2}".

(** The text [{"a":[1,2]}]. *)
Definition text_a_12 : string := "{" ++ quoted "a" ++ ":[1,2]}".

(** The text ["x"]. *)
Definition text_x : string := quoted "x".

(** The texts [{"a":1,"b":[1,2]}] and [{"a":2,"b":[1],"c":null}]. *)
Definition text_before : string :=
  "{" ++ quoted "a" ++ ":1," ++ quoted "b" ++ ":[1,2]}".

Definition text_after : string :=
  "{" ++ quoted "a" ++ ":2," ++ quoted "b" ++ ":[1]," ++ quoted "c" ++ ":null}".

(** Type, keyPath and values of a change. *)
Definition change_outline (c : DiffChange)
    : DiffChangeType * string * option JSValue * option JSValue :=
  (dc_type c, dc_keyPath c, dc_originalValue c, dc_modifiedValue c).

(** ** Runs and edit scripts *)

(** The characters of the original text that a list of runs consumes: the
    lengths of the runs that are not additions. *)
Fixpoint consumed (runs : list CharChange) : nat :=
  match runs with
  | [] => 0
  | c :: rest =>
      match cc_type c with
      | cc_add => consumed rest
      | cc_remove | cc_equal => cc_length c + consumed rest
      end
  end.

(** A list of runs whose start indices are offsets in the original text:
    -1 for an addition, and for any other run the characters that the runs
    before it consume. *)
Definition offsets_from_original (runs : list CharChange) : Prop :=
  forall n : nat,
    match nth_error runs n with
    | Some c =>
        cc_startIndex c =
        match cc_type c with
        | cc_add => (-1)%Z
        | cc_remove | cc_equal => Z.of_nat (consumed (firstn n runs))
        end
    | None => True
    end.

(** The text an edit script starts from, and the text it arrives at. *)
Fixpoint script_source (script : list Edit) : string :=
  match script with
  | [] => ""
  | Keep c :: rest | Delete c :: rest => String c (script_source rest)
  | Insert _ :: rest => script_source rest
  end.

Fixpoint script_target (script : list Edit) : string :=
  match script with
  | [] => ""
  | Keep c :: rest | Insert c :: rest => String c (script_target rest)
  | Delete _ :: rest => script_target rest
  end.

Definition edits (a b : string) (script : list Edit) : Prop :=
  script_source script = a /\ script_target script = b.

Fixpoint suffixes (b : string) : list string :=
  match b with
  | EmptyString => [b]
  | String _ b' => b :: suffixes b'
  end.

Definition type_of_run (r : Change) : CharChangeType :=
  if ch_added r then cc_add else if ch_removed r then cc_remove else cc_equal.

(** The values of the runs whose type is chosen, joined in order. *)
Definition chosen_values (chosen : CharChangeType -> bool) (rs : list Change) : string :=
  String.concat "" (map ch_value (filter (fun r => chosen (type_of_run r)) rs)).

(** The characters of the edits whose type is chosen, joined in order. *)
Definition chosen_characters (chosen : CharChangeType -> bool) (script : list Edit) : string :=
  String.concat ""
    (map (fun e => if chosen (type_of_run (run_of e)) then ch_value (run_of e) else "") script).

(** ** Counts of changes *)

Record Counts : Type := {
  n_additions : nat;
  n_deletions : nat;
  n_modifications : nat
}.

Definition no_counts : Counts :=
  {| n_additions := 0; n_deletions := 0; n_modifications := 0 |}.

Definition counts_plus (x y : Counts) : Counts := {|
  n_additions := n_additions x + n_additions y;
  n_deletions := n_deletions x + n_deletions y;
  n_modifications := n_modifications x + n_modifications y
|}.

(** Additions and deletions exchanged. *)
Definition counts_swap (x : Counts) : Counts := {|
  n_additions := n_deletions x;
  n_deletions := n_additions x;
  n_modifications := n_modifications x
|}.

Definition counts_sum {A : Type} (f : A -> Counts) (l : list A) : Counts :=
  fold_right (fun a total => counts_plus (f a) total) no_counts l.

Definition counts_of (changes : list DiffChange) : Counts := {|
  n_additions := List.length (filter (is_type addition) changes);
  n_deletions := List.length (filter (is_type deletion) changes);
  n_modifications := List.length (filter (is_type modification) changes)
|}.

(** What one array entry of a delta adds to the counts. *)
Definition pushed (value : list JSValue) : Counts :=
  match value with
  | [_] => {| n_additions := 1; n_deletions := 0; n_modifications := 0 |}
  | [_; _] => {| n_additions := 0; n_deletions := 0; n_modifications := 1 |}
  | [_; _; v2] =>
      if is_zero v2 then {| n_additions := 0; n_deletions := 1; n_modifications := 0 |}
      else no_counts
  | _ => no_counts
  end.

(** What the entry [value] of a delta node adds, and what a member with its
    key adds: the marker [_t] adds nothing. *)
Fixpoint entry_counts (value : JSValue) : Counts :=
  match value with
  | JArr elems => pushed elems
  | JObj props =>
      counts_sum (fun kv => if String.eqb (fst kv) "_t" then no_counts
                            else entry_counts (snd kv)) props
  | JNull | JBool _ | JNum _ | JStr _ => no_counts
  end.

Definition member_counts (kv : string * JSValue) : Counts :=
  if String.eqb (fst kv) "_t" then no_counts else entry_counts (snd kv).

Definition delta_counts (delta : option JSValue) : Counts :=
  match delta with
  | Some d => entry_counts d
  | None => no_counts
  end.

(** The entries of [container_delta] for a list of keys. *)
Definition entries_for (child : option JSValue -> option JSValue -> option JSValue)
    (lo ro : list (string * JSValue)) (keys : list string) : list (string * JSValue) :=
  flat_map (fun key => match child (lookup key lo) (lookup key ro) with
                       | Some d => [(key, d)]
                       | None => []
                       end) keys.

(** ** Documents whose objects have no key twice *)

Fixpoint distinct (keys : list string) : bool :=
  match keys with
  | [] => true
  | k :: rest => negb (existsb (String.eqb k) rest) && distinct rest
  end.

(** Every object of the value, at any depth, has distinct keys, as the
    objects that [JSON.parse] returns have. *)
Fixpoint unique_keys (v : JSValue) : bool :=
  match v with
  | JArr items => forallb unique_keys items
  | JObj props => distinct (map fst props) && forallb (fun kv => unique_keys (snd kv)) props
  | JNull | JBool _ | JNum _ | JStr _ => true
  end.

(** A value that may be absent and has distinct keys when it is there. *)
Definition unique_keys_opt (v : option JSValue) : Prop :=
  match v with
  | Some x => unique_keys x = true
  | None => True
  end.

(** Two documents that are both arrays or both objects. *)
Definition both_containers (a b : JSValue) : bool :=
  match a, b with
  | JArr _, JArr _ | JObj _, JObj _ => true
  | _, _ => false
  end.

(** ** Ids and line numbers *)

(** The line numbers a change of type [t] carries when the counter is at
    [line]. *)
Definition line_numbers_of (t : DiffChangeType) (line : nat) : DiffLineNumber :=
  match t with
  | addition => {| ln_original := None; ln_modified := Some line |}
  | deletion => {| ln_original := Some line; ln_modified := None |}
  | modification => {| ln_original := Some line; ln_modified := Some line |}
  end.

(** The changes are numbered in the order of their emission, and the line
    counter is one past their number. *)
Definition in_emission_order (changes : list DiffChange) (currentLine : nat) : Prop :=
  currentLine = S (List.length changes)
  /\ forall n : nat,
       match nth_error changes n with
       | Some c =>
           dc_id c = "diff-" ++ string_of_nat n
           /\ dc_lineNumber c = line_numbers_of (dc_type c) (S n)
       | None => True
       end.

(** ** Lines and line chunks *)

(** The lines of a text, each with the line feed that ends it. *)
Fixpoint line_tokens (s : string) : list string :=
  match s with
  | EmptyString => []
  | String c rest =>
      if Ascii.eqb c LF then newline :: line_tokens rest
      else match line_tokens rest with
           | token :: tokens => String c token :: tokens
           | [] => [String c ""]
           end
  end.

(** The leading lines two texts share, and what is left of each. *)
Fixpoint common_lines (xs ys : list string)
    : list string * list string * list string :=
  match xs, ys with
  | x :: xs', y :: ys' =>
      if String.eqb x y then
        let '(common, removed, added) := common_lines xs' ys' in (x :: common, removed, added)
      else ([], xs, ys)
  | _, _ => ([], xs, ys)
  end.

Definition chunk (added removed : bool) (tokens : list string) : list Change :=
  match tokens with
  | [] => []
  | _ :: _ => [ {| ch_value := String.concat "" tokens;
                   ch_added := added;
                   ch_removed := removed |} ]
  end.

(** A line differ for the concrete runs: the leading lines the two texts
    share are one unchanged chunk, the rest of the original text is one
    removed chunk and the rest of the modified text one added chunk. *)
Definition diffLines_leading (a b : string) : list Change :=
  let '(common, removed, added) := common_lines (line_tokens a) (line_tokens b) in
  (chunk false false common ++ chunk false true removed ++ chunk true false added)%list.

(** The texts of the lines a, b and of the lines a, c, each line ended by a
    line feed. *)
Definition text_lines_a_b : string := "a" ++ newline ++ "b" ++ newline.

Definition text_lines_a_c : string := "a" ++ newline ++ "c" ++ newline.

(** How often a character occurs in a text. *)
Fixpoint occurrences (c : ascii) (s : string) : nat :=
  match s with
  | EmptyString => 0
  | String x rest => (if Ascii.eqb x c then 1 else 0) + occurrences c rest
  end.

(** The runs that belong to the original text, and those that belong to
    the modified text. *)
Definition in_original (t : CharChangeType) : bool :=
  match t with cc_add => false | _ => true end.

Definition in_modified (t : CharChangeType) : bool :=
  match t with cc_remove => false | _ => true end.

(** The values of the runs whose type is chosen, joined in order. *)
Definition rebuilt (chosen : CharChangeType -> bool) (runs : list CharChange) : string :=
  String.concat "" (map cc_value (filter (fun c => chosen (cc_type c)) runs)).

(** A character differ whose runs hold the two texts: those that are not
    added the original text, those that are not removed the modified
    text. *)
Definition rebuilds_both (diffChars : string -> string -> list Change) : Prop :=
  forall a b : string,
    chosen_values in_original (diffChars a b) = a
    /\ chosen_values in_modified (diffChars a b) = b.

(** The four results that [calculateMultiLineCharDiff] pushes: for a line
    added, for a line removed, for two equal lines and for two lines that
    differ. *)
Inductive pushed_result (diffChars : string -> string -> list Change)
    : CharLevelDiffResult -> Prop :=
| pushed_added (index : nat) (line : string) :
    pushed_result diffChars
      {| lineIndex := index;
         originalLine := "";
         modifiedLine := line;
         charChanges := [ {| cc_type := cc_add; cc_value := line;
                             cc_startIndex := -1; cc_length := String.length line |} ];
         hasChanges := true |}
| pushed_removed (index : nat) (line : string) :
    pushed_result diffChars
      {| lineIndex := index;
         originalLine := line;
         modifiedLine := "";
         charChanges := [ {| cc_type := cc_remove; cc_value := line;
                             cc_startIndex := 0; cc_length := String.length line |} ];
         hasChanges := true |}
| pushed_equal (index : nat) (line : string) :
    pushed_result diffChars
      {| lineIndex := index;
         originalLine := line;
         modifiedLine := line;
         charChanges := [ {| cc_type := cc_equal; cc_value := line;
                             cc_startIndex := 0; cc_length := String.length line |} ];
         hasChanges := false |}
| pushed_differing (index : nat) (original modified : string) :
    original <> modified ->
    pushed_result diffChars
      {| lineIndex := index;
         originalLine := original;
         modifiedLine := modified;
         charChanges := calculateCharLevelDiff diffChars original modified;
         hasChanges :=
           existsb not_equal_type (calculateCharLevelDiff diffChars original modified) |}.

(** What the loops over the lines of a chunk append to [results]: one
    result per line, each of one of the four shapes. *)
Definition appended (diffChars : string -> string -> list Change) (lines : list string)
    (before after : list CharLevelDiffResult) : Prop :=
  exists pushed : list CharLevelDiffResult,
    after = (before ++ pushed)%list
    /\ List.length pushed = List.length lines
    /\ Forall (pushed_result diffChars) pushed.

(** A run that is found in [text]: its length is that of its value, and if
    it is not an addition, the substring of [text] of that length from its
    startIndex on is its value. *)
Definition addressed_in (text : string) (c : CharChange) : Prop :=
  cc_length c = String.length (cc_value c)
  /\ match cc_type c with
     | cc_add => cc_startIndex c = (-1)%Z
     | cc_remove | cc_equal =>
         substring (Z.to_nat (cc_startIndex c)) (cc_length c) text = cc_value c
     end.

(** ** Delta entries that the flattener passes over *)

(** The entries of a delta node for which [traverse] has no branch: those
    under the key [_t], and those whose value is an array of no, of more
    than three elements, or of three elements without a trailing 0, or is
    no array and no object. *)
Definition passed_over (key : string) (value : JSValue) : bool :=
  String.eqb key "_t"
  || match value with
     | JArr [_] | JArr [_; _] => false
     | JArr [_; _; v2] => negb (is_zero v2)
     | JArr _ => true
     | JObj _ => false
     | JNull | JBool _ | JNum _ | JStr _ => true
     end.

(** A delta node without the entries that are passed over, at every depth
    that [traverse] reaches. *)
Fixpoint without_passed_over (deltaNode : JSValue) : JSValue :=
  match deltaNode with
  | JObj props =>
      JObj (flat_map (fun kv => if passed_over (fst kv) (snd kv) then []
                                else [(fst kv, without_passed_over (snd kv))]) props)
  | JNull | JBool _ | JNum _ | JStr _ | JArr _ => deltaNode
  end.

(** ** Navigation and exports *)

(** The index that [currentDiffIndex] holds after a handler is left. *)
Definition index_after (currentDiffIndex : Z) (done : Navigated) : Z :=
  match done with
  | nothing_done => currentDiffIndex
  | scrolled_to index _ | thrown_TypeError index => index
  end.

(** The index after [navigateToNext], and after [navigateToPrevious]. *)
Definition next_index (comparison : DiffComparison) (currentDiffIndex : Z) : Z :=
  index_after currentDiffIndex (navigateToNext (Some comparison) currentDiffIndex).

Definition previous_index (comparison : DiffComparison) (currentDiffIndex : Z) : Z :=
  index_after currentDiffIndex (navigateToPrevious (Some comparison) currentDiffIndex).

(** An index at which the comparison has a difference. *)
Definition on_a_difference (comparison : DiffComparison) (index : Z) : Prop :=
  (0 <= index < Z.of_nat (List.length (differences comparison)))%Z.

(** A handler has scrolled to the difference at an index of the
    comparison, and read the id of this difference. *)
Definition scrolled_to_a_difference (comparison : DiffComparison) (done : Navigated) : Prop :=
  exists (index : nat) (change : DiffChange),
    done = scrolled_to (Z.of_nat index) (dc_id change)
    /\ nth_error (differences comparison) index = Some change.

(** The text export of a comparison without differences. *)
Definition empty_text_report : string :=
  String.concat newline
    [ "============================================================";
      "JSON Diff Result";
      "============================================================";
      "";
      "Total Changes: 0";
      "  Additions: 0";
      "  Deletions: 0";
      "  Modifications: 0";
      "";
      "------------------------------------------------------------" ].

(** The type of a change in capital letters. *)
Definition type_label (t : DiffChangeType) : string :=
  match t with
  | addition => "ADDITION"
  | deletion => "DELETION"
  | modification => "MODIFICATION"
  end.

(** The text [{]: no JSON document. *)
Definition text_open_brace : string := "{".

(** ** Documents without the key of the array marker *)




(** * Properties *)

(** ** Induction on values *)

(** Structural induction that reaches the members of arrays and objects. *)
Lemma JSValue_ind (P : JSValue -> Prop) :
  P JNull ->
  (forall b, P (JBool b)) ->
  (forall n, P (JNum n)) ->
  (forall s, P (JStr s)) ->
  (forall items, Forall P items -> P (JArr items)) ->
  (forall props, Forall (fun kv => P (snd kv)) props -> P (JObj props)) ->
  forall v, P v.
Proof.
  intros Hnull Hbool Hnum Hstr Harr Hobj.
  fix IH 1.
  intros [ | b | n | s | items | props ].
  - exact Hnull.
  - apply Hbool.
  - apply Hnum.
  - apply Hstr.
  - apply Harr. induction items as [ | x xs IHxs ]; constructor; [ apply IH | exact IHxs ].
  - apply Hobj. induction props as [ | [k x] ps IHps ]; constructor; [ apply IH | exact IHps ].
Qed.

(** ** The summary *)

Lemma calculateSummary_total (ds : list DiffChange) :
  List.length ds =
  List.length (filter (is_type addition) ds)
  + List.length (filter (is_type deletion) ds)
  + List.length (filter (is_type modification) ds).
Proof.
  induction ds as [ | d ds IH ]; [ reflexivity | ].
  unfold is_type in *. cbn [filter List.length].
  destruct (dc_type d); cbn [List.length]; lia.
Qed.

(** C1: in every comparison that [calculateDiffSync] returns, in the error
    states as in the completed state, the summary satisfies
    totalChanges = additionCount + deletionCount + modificationCount. *)
Theorem summary_invariant :
  forall (JSON_parse : string -> string + JSValue)
         (diff : option JSValue -> option JSValue -> option JSValue)
         (clock : Clock) (a b : string) (o : PartialDiffOptions),
    totalChanges (summary (calculateDiffSync JSON_parse diff clock a b o)) =
    additionCount (summary (calculateDiffSync JSON_parse diff clock a b o))
    + deletionCount (summary (calculateDiffSync JSON_parse diff clock a b o))
    + modificationCount (summary (calculateDiffSync JSON_parse diff clock a b o)).
Proof.
  intros JSON_parse diff clock a b o.
  unfold calculateDiffSync, validateJSON.
  destruct (JSON_parse a) as [ ma | va ]; simpl; [ reflexivity | ].
  destruct (JSON_parse b) as [ mb | vb ]; simpl; [ reflexivity | ].
  apply calculateSummary_total.
Qed.

(** ** The error states *)

Lemma string_or_nonempty (m fallback : string) :
  m <> "" -> string_or (Some m) fallback = m.
Proof.
  intros Hm. unfold string_or.
  destruct (String.eqb_spec m ""); [ contradiction | reflexivity ].
Qed.

(** C3: when the original text fails to parse, whatever the modified text
    is, the comparison has status error, the code PARSE_ERROR_ORIGINAL with
    the parser's (non-empty) message as it is, no differences, a summary of
    zeros and no delta; the delta engine plays no part in the result. *)
Theorem parse_error_original :
  forall (JSON_parse : string -> string + JSValue)
         (diff : option JSValue -> option JSValue -> option JSValue)
         (clock : Clock) (a b : string) (o : PartialDiffOptions) (msg : string),
    JSON_parse a = inl msg ->
    msg <> "" ->
    status (calculateDiffSync JSON_parse diff clock a b o) = error
    /\ cmp_error (calculateDiffSync JSON_parse diff clock a b o)
       = Some {| err_code := PARSE_ERROR_ORIGINAL;
                 err_message := msg;
                 err_timestamp := error_Date clock |}
    /\ differences (calculateDiffSync JSON_parse diff clock a b o) = []
    /\ totalChanges (summary (calculateDiffSync JSON_parse diff clock a b o)) = 0
    /\ additionCount (summary (calculateDiffSync JSON_parse diff clock a b o)) = 0
    /\ deletionCount (summary (calculateDiffSync JSON_parse diff clock a b o)) = 0
    /\ modificationCount (summary (calculateDiffSync JSON_parse diff clock a b o)) = 0
    /\ cmp_delta (calculateDiffSync JSON_parse diff clock a b o) = None
    /\ (forall diff' : option JSValue -> option JSValue -> option JSValue,
          calculateDiffSync JSON_parse diff' clock a b o
          = calculateDiffSync JSON_parse diff clock a b o).
Proof.
  intros JSON_parse diff clock a b o msg Hparse Hmsg.
  unfold calculateDiffSync, validateJSON. rewrite Hparse.
  cbn -[string_or]. rewrite (string_or_nonempty msg "Invalid JSON" Hmsg).
  repeat split; reflexivity.
Qed.

(** Scenario 4: original [not json], modified [{}]. *)
Lemma parse_error_original_witness :
  status (calculateDiffSync JSON_parse_host jsondiffpatch_diff sample_clock
            "not json" "{}" no_options) = error
  /\ cmp_error (calculateDiffSync JSON_parse_host jsondiffpatch_diff sample_clock
                  "not json" "{}" no_options)
     = Some {| err_code := PARSE_ERROR_ORIGINAL;
               err_message := "Unexpected token o in JSON at position 1";
               err_timestamp := 1700000000000 |}.
Proof.
  pose proof (parse_error_original JSON_parse_host jsondiffpatch_diff sample_clock
                "not json" "{}" no_options "Unexpected token o in JSON at position 1"
                eq_refl ltac:(discriminate)) as H.
  split; [ apply H | apply (proj1 (proj2 H)) ].
Defined.

(** When the original text parses and the modified text does not, the
    comparison has status error, the code PARSE_ERROR_MODIFIED with the
    parser's (non-empty) message, no differences, a summary of zeros and no
    delta. *)
Theorem parse_error_modified :
  forall (JSON_parse : string -> string + JSValue)
         (diff : option JSValue -> option JSValue -> option JSValue)
         (clock : Clock) (a b : string) (o : PartialDiffOptions)
         (va : JSValue) (msg : string),
    JSON_parse a = inr va ->
    JSON_parse b = inl msg ->
    msg <> "" ->
    status (calculateDiffSync JSON_parse diff clock a b o) = error
    /\ cmp_error (calculateDiffSync JSON_parse diff clock a b o)
       = Some {| err_code := PARSE_ERROR_MODIFIED;
                 err_message := msg;
                 err_timestamp := error_Date clock |}
    /\ differences (calculateDiffSync JSON_parse diff clock a b o) = []
    /\ summary (calculateDiffSync JSON_parse diff clock a b o) = EMPTY_DIFF_SUMMARY
    /\ cmp_delta (calculateDiffSync JSON_parse diff clock a b o) = None.
Proof.
  intros JSON_parse diff clock a b o va msg Ha Hb Hmsg.
  unfold calculateDiffSync, validateJSON. rewrite Ha. cbn [isValid negb]. rewrite Hb.
  cbn -[string_or]. rewrite (string_or_nonempty msg "Invalid JSON" Hmsg).
  repeat split; reflexivity.
Qed.

(** Original [{}], modified [[1,], which ends too early. *)
Lemma parse_error_modified_witness :
  status (calculateDiffSync JSON_parse_host jsondiffpatch_diff sample_clock
            "{}" "[1," no_options) = error
  /\ cmp_error (calculateDiffSync JSON_parse_host jsondiffpatch_diff sample_clock
                  "{}" "[1," no_options)
     = Some {| err_code := PARSE_ERROR_MODIFIED;
               err_message := "Unexpected end of JSON input";
               err_timestamp := 1700000000000 |}.
Proof.
  destruct (parse_error_modified JSON_parse_host jsondiffpatch_diff sample_clock
              "{}" "[1," no_options (JObj []) "Unexpected end of JSON input"
              eq_refl eq_refl ltac:(discriminate)) as (Hstatus & Herror & _).
  split; [ exact Hstatus | exact Herror ].
Defined.

(** ** The options *)

(** C9: for any two texts and any two options objects the delta, the
    differences and the summary are the same, also when the two calls read
    different clocks; the options are only merged over the defaults and
    echoed in the record. *)
Theorem options_only_echoed :
  forall (JSON_parse : string -> string + JSValue)
         (diff : option JSValue -> option JSValue -> option JSValue)
         (clock1 clock2 : Clock) (a b : string) (o1 o2 : PartialDiffOptions),
    cmp_delta (calculateDiffSync JSON_parse diff clock1 a b o1)
    = cmp_delta (calculateDiffSync JSON_parse diff clock2 a b o2)
    /\ differences (calculateDiffSync JSON_parse diff clock1 a b o1)
       = differences (calculateDiffSync JSON_parse diff clock2 a b o2)
    /\ summary (calculateDiffSync JSON_parse diff clock1 a b o1)
       = summary (calculateDiffSync JSON_parse diff clock2 a b o2)
    /\ options (calculateDiffSync JSON_parse diff clock1 a b o1)
       = spread DEFAULT_DIFF_OPTIONS o1
    /\ options (calculateDiffSync JSON_parse diff clock2 a b o2)
       = spread DEFAULT_DIFF_OPTIONS o2.
Proof.
  intros JSON_parse diff clock1 clock2 a b o1 o2.
  unfold calculateDiffSync, validateJSON.
  destruct (JSON_parse a) as [ ma | va ]; simpl; [ repeat split | ].
  destruct (JSON_parse b) as [ mb | vb ]; simpl; repeat split.
Qed.

(** C2, as stated, fails: with [maxDifferences] 1, the texts [{}] and
    [{"a":1,"b":2}] give two differences. *)
Lemma maxDifferences_not_applied :
  maxDifferences (options (calculateDiffSync JSON_parse_host jsondiffpatch_diff sample_clock
                             "{}" text_a1_b2 at_most_one)) = 1%Z
  /\ List.length (differences (calculateDiffSync JSON_parse_host jsondiffpatch_diff
                                 sample_clock "{}" text_a1_b2 at_most_one)) = 2
  /\ (Z.of_nat (List.length (differences (calculateDiffSync JSON_parse_host
                                            jsondiffpatch_diff sample_clock
                                            "{}" text_a1_b2 at_most_one)))
      <=? maxDifferences (options (calculateDiffSync JSON_parse_host jsondiffpatch_diff
                                     sample_clock "{}" text_a1_b2 at_most_one)))%Z
     = false.
Proof. vm_compute. repeat split. Qed.

(** C2, amended: for two texts that parse, the differences are the whole
    flattening of the delta of the two parsed values, whatever the options
    are; [maxDifferences] removes nothing from the list. *)
Theorem differences_not_truncated :
  forall (JSON_parse : string -> string + JSValue)
         (diff : option JSValue -> option JSValue -> option JSValue)
         (clock : Clock) (a b : string) (o : PartialDiffOptions) (va vb : JSValue),
    JSON_parse a = inr va ->
    JSON_parse b = inr vb ->
    differences (calculateDiffSync JSON_parse diff clock a b o)
    = parseDeltaToDiffChanges (delta_or_empty (diff (Some va) (Some vb)))
        (Some va) (Some vb).
Proof.
  intros JSON_parse diff clock a b o va vb Ha Hb.
  unfold calculateDiffSync, validateJSON. rewrite Ha. simpl. rewrite Hb. reflexivity.
Qed.

(** The run with [maxDifferences] 1 on the texts [{}] and [{"a":1,"b":2}]. *)
Lemma differences_not_truncated_witness :
  differences (calculateDiffSync JSON_parse_host jsondiffpatch_diff sample_clock
                 "{}" text_a1_b2 at_most_one)
  = parseDeltaToDiffChanges
      (delta_or_empty
         (jsondiffpatch_diff (Some (JObj []))
            (Some (JObj [("a", JNum 1); ("b", JNum 2)]))))
      (Some (JObj [])) (Some (JObj [("a", JNum 1); ("b", JNum 2)])).
Proof.
  apply (differences_not_truncated JSON_parse_host jsondiffpatch_diff sample_clock
           "{}" text_a1_b2 at_most_one); vm_compute; reflexivity.
Defined.

(** ** The JSON Patch export *)

(** C10: [generateJSONPatch] returns the empty patch as soon as one of
    [originalParsed] and [modifiedParsed] is falsy: absent, or one of the
    scalars null, false, 0 and the empty string, which completed
    comparisons of valid scalar documents carry; [compare] is not called. *)
Theorem generateJSONPatch_falsy_side :
  forall (compare : option JSValue -> option JSValue -> JSONPatch),
    (forall comparison : DiffComparison,
        js_not (originalParsed comparison) || js_not (modifiedParsed comparison) = true ->
        generateJSONPatch compare comparison = [])
    /\ (forall (JSON_parse : string -> string + JSValue)
               (diff : option JSValue -> option JSValue -> option JSValue)
               (clock : Clock) (a b : string) (o : PartialDiffOptions) (va vb : JSValue),
           JSON_parse a = inr va ->
           JSON_parse b = inr vb ->
           In va [JNum 0; JBool false; JNull; JStr ""]
           \/ In vb [JNum 0; JBool false; JNull; JStr ""] ->
           status (calculateDiffSync JSON_parse diff clock a b o) = completed
           /\ generateJSONPatch compare (calculateDiffSync JSON_parse diff clock a b o) = []).
Proof.
  intros compare. split.
  - intros comparison Hfalsy. unfold generateJSONPatch. rewrite Hfalsy. reflexivity.
  - intros JSON_parse diff clock a b o va vb Ha Hb Hscalar.
    unfold generateJSONPatch, calculateDiffSync, validateJSON.
    rewrite Ha. cbn [isValid negb]. rewrite Hb. cbn [isValid negb].
    split; [ reflexivity | ].
    cbn [originalParsed modifiedParsed vr_parsed js_not].
    assert (js_falsy va || js_falsy vb = true) as ->; [ | reflexivity ].
    apply orb_true_iff.
    destruct Hscalar as [ H | H ]; [ left | right ];
      cbn [In] in H; decompose [or] H; subst; try reflexivity; contradiction.
Qed.

(** The documents [0] and [{}]: a completed comparison, and an empty patch
    although [replace_document] would return an operation. *)
Lemma generateJSONPatch_falsy_side_witness :
  status (calculateDiffSync JSON_parse_host jsondiffpatch_diff sample_clock
            "0" "{}" no_options) = completed
  /\ generateJSONPatch replace_document
       (calculateDiffSync JSON_parse_host jsondiffpatch_diff sample_clock
          "0" "{}" no_options) = [].
Proof.
  apply (proj2 (generateJSONPatch_falsy_side replace_document)
           JSON_parse_host jsondiffpatch_diff
           sample_clock "0" "{}" no_options (JNum 0) (JObj []));
    [ reflexivity | reflexivity | left; left; reflexivity ].
Defined.

(** ** The flattener *)

Section Flattened.

(** A property of the array of changes and the line counter that every
    push keeps is kept by [traverse], and so holds of what
    [parseDeltaToDiffChanges] returns when it holds at the start. *)
Variable Q : list DiffChange -> nat -> Prop.

Hypothesis push_change_keeps :
  forall keyPath value changes currentLine,
    Q changes currentLine ->
    Q (fst (push_change keyPath value changes currentLine))
      (snd (push_change keyPath value changes currentLine)).

Lemma visit_keeps descend origNode modNode path key value changes currentLine :
  (forall o m p c l, Q c l -> Q (fst (descend value o m p c l)) (snd (descend value o m p c l))) ->
  Q changes currentLine ->
  Q (fst (visit descend origNode modNode path key value changes currentLine))
    (snd (visit descend origNode modNode path key value changes currentLine)).
Proof.
  intros Hdescend Hchanges. unfold visit.
  destruct (String.eqb key "_t"); [ exact Hchanges | ].
  destruct value; try exact Hchanges.
  - apply push_change_keeps, Hchanges.
  - apply Hdescend, Hchanges.
Qed.

Lemma traverse_keeps :
  forall deltaNode origNode modNode path changes lineNum,
    Q changes lineNum ->
    Q (fst (traverse deltaNode origNode modNode path changes lineNum))
      (snd (traverse deltaNode origNode modNode path changes lineNum)).
Proof.
  induction deltaNode as [ | b | n | s | items IHitems | props IHprops ] using JSValue_ind;
    intros origNode modNode path changes lineNum Hchanges; try exact Hchanges.
  - cbn [traverse]. generalize 0 as i.
    revert changes lineNum Hchanges.
    induction IHitems as [ | value rest Hvalue _ IHrest ];
      intros changes lineNum Hchanges i; [ exact Hchanges | ].
    cbn -[visit traverse string_of_nat].
    pose proof (visit_keeps traverse origNode modNode path (string_of_nat i) value
                  changes lineNum) as Hvisit.
    destruct (visit traverse origNode modNode path (string_of_nat i) value changes lineNum)
      as [changes' currentLine'].
    apply IHrest, Hvisit; [ intros; apply Hvalue; assumption | exact Hchanges ].
  - cbn [traverse].
    revert changes lineNum Hchanges.
    induction IHprops as [ | [key value] rest Hvalue _ IHrest ];
      intros changes lineNum Hchanges; [ exact Hchanges | ].
    cbn -[visit traverse].
    pose proof (visit_keeps traverse origNode modNode path key value changes lineNum)
      as Hvisit.
    destruct (visit traverse origNode modNode path key value changes lineNum)
      as [changes' currentLine'].
    apply IHrest, Hvisit; [ intros; apply Hvalue; assumption | exact Hchanges ].
Qed.

Lemma parseDeltaToDiffChanges_keeps delta original modified :
  Q [] 1 ->
  exists lineNum : nat, Q (parseDeltaToDiffChanges delta original modified) lineNum.
Proof.
  intros Hstart. unfold parseDeltaToDiffChanges.
  destruct (js_not delta); [ exists 1; exact Hstart | ].
  destruct delta as [ d | ]; [ | exists 1; exact Hstart ].
  exists (snd (traverse d original modified [] [] 1)).
  apply traverse_keeps, Hstart.
Qed.

End Flattened.

Lemma parseDeltaToDiffChanges_Forall (P : DiffChange -> Prop) :
  (forall keyPath value changes currentLine,
      Forall P changes -> Forall P (fst (push_change keyPath value changes currentLine))) ->
  forall delta original modified,
    Forall P (parseDeltaToDiffChanges delta original modified).
Proof.
  intros Hpush delta original modified.
  destruct (parseDeltaToDiffChanges_keeps (fun changes _ => Forall P changes) Hpush
              delta original modified (Forall_nil P)) as [lineNum H].
  exact H.
Qed.

(** C8, as stated, fails: the addition and the deletion of a key are not
    rendered with the words (added) and (removed). *)
Lemma displayText_suffixes_not_english :
  map dc_displayText
    (parseDeltaToDiffChanges
       (Some (JObj [("b", JArr [JNum 2]); ("c", JArr [JNum 3; JNum 0; JNum 0])]))
       None None)
  = ["b: 2 (新增)"; "c: 3 (刪除)"]
  /\ String.eqb "b: 2 (新增)" ("b" ++ ": " ++ JSON_stringify (JNum 2) ++ " (added)") = false
  /\ String.eqb "c: 3 (刪除)" ("c" ++ ": " ++ JSON_stringify (JNum 3) ++ " (removed)") = false.
Proof. vm_compute. repeat split. Qed.

(** C8, amended: every change the flattener emits has, with path its
    keyPath and json the rendering of [JSON.stringify], the displayText
    "path: json(newVal) (新增)" when it is an addition,
    "path: json(oldVal) (刪除)" when it is a deletion, and
    "path: json(oldVal) → json(newVal)" when it is a modification. *)
Theorem displayText_per_type :
  forall delta original modified : option JSValue,
    Forall
      (fun c : DiffChange =>
         match dc_type c with
         | addition =>
             exists newVal,
               dc_modifiedValue c = Some newVal
               /\ dc_displayText c
                  = dc_keyPath c ++ ": " ++ JSON_stringify newVal ++ " (新增)"
         | deletion =>
             exists oldVal,
               dc_originalValue c = Some oldVal
               /\ dc_displayText c
                  = dc_keyPath c ++ ": " ++ JSON_stringify oldVal ++ " (刪除)"
         | modification =>
             exists oldVal newVal,
               dc_originalValue c = Some oldVal
               /\ dc_modifiedValue c = Some newVal
               /\ dc_displayText c
                  = dc_keyPath c ++ ": " ++ JSON_stringify oldVal
                      ++ " → " ++ JSON_stringify newVal
         end)
      (parseDeltaToDiffChanges delta original modified).
Proof.
  intros delta original modified.
  apply parseDeltaToDiffChanges_Forall.
  intros keyPath value changes currentLine Hchanges.
  unfold push_change.
  destruct value as [ | v0 [ | v1 [ | v2 [ | v3 rest ] ] ] ]; try exact Hchanges.
  - cbn [fst]. apply Forall_app. split; [ exact Hchanges | ].
    constructor; [ | constructor ]. cbn. exists v0. split; reflexivity.
  - cbn [fst]. apply Forall_app. split; [ exact Hchanges | ].
    constructor; [ | constructor ]. cbn. exists v0, v1. repeat split.
  - destruct (is_zero v2); [ | exact Hchanges ].
    cbn [fst]. apply Forall_app. split; [ exact Hchanges | ].
    constructor; [ | constructor ]. cbn. exists v0. split; reflexivity.
Qed.

(** Values by type: an addition carries the modified value only, a
    deletion the original value only, a modification both. *)
Theorem values_present_by_type :
  forall delta original modified : option JSValue,
    Forall
      (fun c : DiffChange =>
         match dc_type c with
         | addition =>
             dc_originalValue c = None /\ exists newVal, dc_modifiedValue c = Some newVal
         | deletion =>
             (exists oldVal, dc_originalValue c = Some oldVal) /\ dc_modifiedValue c = None
         | modification =>
             (exists oldVal, dc_originalValue c = Some oldVal)
             /\ exists newVal, dc_modifiedValue c = Some newVal
         end)
      (parseDeltaToDiffChanges delta original modified).
Proof.
  intros delta original modified.
  apply parseDeltaToDiffChanges_Forall.
  intros keyPath value changes currentLine Hchanges.
  unfold push_change.
  destruct value as [ | v0 [ | v1 [ | v2 [ | v3 rest ] ] ] ]; try exact Hchanges.
  - cbn [fst]. apply Forall_app. split; [ exact Hchanges | ].
    constructor; [ | constructor ]. cbn. split; [ reflexivity | exists v0; reflexivity ].
  - cbn [fst]. apply Forall_app. split; [ exact Hchanges | ].
    constructor; [ | constructor ]. cbn. split; [ exists v0 | exists v1 ]; reflexivity.
  - destruct (is_zero v2); [ | exact Hchanges ].
    cbn [fst]. apply Forall_app. split; [ exact Hchanges | ].
    constructor; [ | constructor ]. cbn. split; [ exists v0; reflexivity | reflexivity ].
Qed.

Lemma in_emission_order_push (changes : list DiffChange) (c : DiffChange) :
  dc_id c = "diff-" ++ string_of_nat (List.length changes) ->
  dc_lineNumber c = line_numbers_of (dc_type c) (S (List.length changes)) ->
  in_emission_order changes (S (List.length changes)) ->
  in_emission_order (changes ++ [c]) (S (S (List.length changes))).
Proof.
  intros Hid Hline [_ Hchanges]. split; [ rewrite length_app; cbn; lia | ].
  intros n.
  destruct (Nat.lt_trichotomy n (List.length changes)) as [ Hlt | [ Heq | Hgt ] ].
  - rewrite nth_error_app1 by exact Hlt. apply Hchanges.
  - subst n. rewrite nth_error_app2 by lia. rewrite Nat.sub_diag. cbn [nth_error].
    split; assumption.
  - rewrite nth_error_app2 by lia.
    destruct (n - List.length changes) as [ | k ] eqn:Hk; [ lia | ].
    cbn [nth_error]. destruct k; exact I.
Qed.

Lemma push_change_in_emission_order keyPath value changes currentLine :
  in_emission_order changes currentLine ->
  in_emission_order (fst (push_change keyPath value changes currentLine))
    (snd (push_change keyPath value changes currentLine)).
Proof.
  intros Hchanges. pose proof Hchanges as [Hline _]. subst currentLine.
  unfold push_change.
  destruct value as [ | v0 [ | v1 [ | v2 [ | v3 rest ] ] ] ]; try exact Hchanges.
  - apply in_emission_order_push; [ reflexivity | reflexivity | exact Hchanges ].
  - apply in_emission_order_push; [ reflexivity | reflexivity | exact Hchanges ].
  - destruct (is_zero v2); [ | exact Hchanges ].
    apply in_emission_order_push; [ reflexivity | reflexivity | exact Hchanges ].
Qed.

(** Ids and line numbers: the change emitted n-th (from 0) has the id
    diff-n and carries the line number n + 1, as original line for a
    deletion, as modified line for an addition, as both for a
    modification. *)
Theorem ids_and_lines_in_emission_order :
  forall (delta original modified : option JSValue) (n : nat),
    match nth_error (parseDeltaToDiffChanges delta original modified) n with
    | Some c =>
        dc_id c = "diff-" ++ string_of_nat n
        /\ dc_lineNumber c = line_numbers_of (dc_type c) (S n)
    | None => True
    end.
Proof.
  intros delta original modified.
  destruct (parseDeltaToDiffChanges_keeps in_emission_order push_change_in_emission_order
              delta original modified) as [lineNum [_ H]]; [ | exact H ].
  split; [ reflexivity | ]. intros n. destruct n; exact I.
Qed.

(** ** The start indices of the runs *)

Lemma consumed_app (xs ys : list CharChange) :
  consumed (xs ++ ys) = consumed xs + consumed ys.
Proof.
  induction xs as [ | c xs IH ]; [ reflexivity | ].
  cbn [consumed app]. rewrite IH. destruct (cc_type c); lia.
Qed.

Lemma offsets_push (runs : list CharChange) (change : Change) :
  offsets_from_original runs ->
  offsets_from_original
    (runs ++ [convertToCharChange change (Z.of_nat (consumed runs))]).
Proof.
  intros Hruns n.
  destruct (Nat.lt_trichotomy n (List.length runs)) as [ Hlt | [ Heq | Hgt ] ].
  - rewrite nth_error_app1 by exact Hlt.
    rewrite firstn_app.
    replace (n - List.length runs) with 0 by lia.
    cbn [firstn]. rewrite app_nil_r. apply Hruns.
  - subst n. rewrite nth_error_app2 by lia. rewrite Nat.sub_diag. cbn [nth_error].
    rewrite firstn_app, Nat.sub_diag, firstn_all. cbn [firstn]. rewrite app_nil_r.
    unfold convertToCharChange. cbn.
    destruct (ch_added change); [ reflexivity | ].
    destruct (ch_removed change); reflexivity.
  - rewrite nth_error_app2 by lia.
    destruct (n - List.length runs) as [ | k ] eqn:Hk; [ lia | ].
    cbn [nth_error]. destruct k; exact I.
Qed.

Lemma convert_runs_offsets (changes : list Change) :
  forall (charChanges : list CharChange) (currentIndex : Z),
    currentIndex = Z.of_nat (consumed charChanges) ->
    offsets_from_original charChanges ->
    offsets_from_original (convert_runs changes charChanges currentIndex).
Proof.
  induction changes as [ | change rest IH ];
    intros charChanges currentIndex Hindex Hruns; [ exact Hruns | ].
  cbn [convert_runs]. apply IH.
  - rewrite consumed_app. cbn [consumed convertToCharChange cc_type cc_length].
    subst currentIndex.
    destruct (ch_added change); cbn [negb]; [ lia | ].
    destruct (ch_removed change); lia.
  - subst currentIndex. apply offsets_push, Hruns.
Qed.

(** C7: whatever runs [diffChars] returns, in the list that
    [calculateCharLevelDiff] returns every run of type add has startIndex
    -1, and every run of type equal or remove has as startIndex the sum of
    the lengths of the runs before it that are not additions. *)
Theorem startIndex_is_original_offset :
  forall (diffChars : string -> string -> list Change) (a b : string) (n : nat),
    match nth_error (calculateCharLevelDiff diffChars a b) n with
    | Some c =>
        cc_startIndex c =
        match cc_type c with
        | cc_add => (-1)%Z
        | cc_remove | cc_equal =>
            Z.of_nat (consumed (firstn n (calculateCharLevelDiff diffChars a b)))
        end
    | None => True
    end.
Proof.
  intros diffChars a b.
  change (offsets_from_original (calculateCharLevelDiff diffChars a b)).
  unfold calculateCharLevelDiff.
  apply convert_runs_offsets; [ reflexivity | ].
  intros n. destruct n; exact I.
Qed.

(** ** Edit scripts rebuild both texts *)

Lemma append_empty_r (s : string) : s ++ "" = s.
Proof. induction s as [ | c s IH ]; [ reflexivity | cbn; rewrite IH; reflexivity ]. Qed.

Lemma append_associative (s t u : string) : (s ++ t) ++ u = s ++ (t ++ u).
Proof. induction s as [ | c s IH ]; [ reflexivity | cbn; rewrite IH; reflexivity ]. Qed.

Lemma concat_empty_cons (x : string) (xs : list string) :
  String.concat "" (x :: xs) = x ++ String.concat "" xs.
Proof.
  destruct xs as [ | y ys ]; [ cbn; rewrite append_empty_r; reflexivity | reflexivity ].
Qed.

Lemma concat_empty_app (xs ys : list string) :
  String.concat "" (xs ++ ys) = String.concat "" xs ++ String.concat "" ys.
Proof.
  induction xs as [ | x xs IH ]; [ reflexivity | ].
  rewrite <- app_comm_cons, !concat_empty_cons, IH, append_associative. reflexivity.
Qed.

Lemma suffixes_head (R : string -> list Edit -> Prop) (b : string) (row : list (list Edit)) :
  Forall2 R (suffixes b) row -> R b (hd [] row).
Proof. destruct b; cbn; intros H; inversion H; assumption. Qed.

Lemma insert_all_edits (b : string) : edits "" b (insert_all b).
Proof.
  induction b as [ | y b [IHs IHt] ]; split; cbn; try reflexivity;
    [ exact IHs | rewrite IHt; reflexivity ].
Qed.

Lemma first_row_edits (b : string) : Forall2 (edits "") (suffixes b) (first_row b).
Proof.
  induction b as [ | y b IH ]; cbn [suffixes first_row].
  - constructor; [ split; reflexivity | constructor ].
  - constructor; [ apply insert_all_edits | exact IH ].
Qed.

Lemma cheaper_edits (a b : string) (deleting inserting : list Edit) :
  edits a b deleting -> edits a b inserting -> edits a b (cheaper deleting inserting).
Proof. intros Hd Hi. unfold cheaper. destruct (_ <? _)%nat; assumption. Qed.

Lemma next_row_edits (x : ascii) (a b : string) :
  forall prev : list (list Edit),
    Forall2 (edits a) (suffixes b) prev ->
    Forall2 (edits (String x a)) (suffixes b) (next_row x b prev).
Proof.
  induction b as [ | y b IH ]; intros prev Hprev; cbn [suffixes] in *.
  - inversion Hprev as [ | s p ss prev' Hhead Hrest ]; subst.
    destruct Hhead as [Hs Ht]. cbn [next_row].
    constructor; [ | constructor ].
    split; cbn; [ rewrite Hs; reflexivity | exact Ht ].
  - inversion Hprev as [ | s p ss prev' Hhead Hrest ]; subst.
    destruct Hhead as [Hs Ht]. cbn [next_row].
    pose proof (IH prev' Hrest) as Hbelow.
    constructor; [ | exact Hbelow ].
    destruct (Ascii.eqb_spec x y) as [ Hxy | Hxy ].
    + subst y. destruct (suffixes_head _ _ _ Hrest) as [Hs' Ht'].
      split; cbn; [ rewrite Hs' | rewrite Ht' ]; reflexivity.
    + apply cheaper_edits.
      * split; cbn; [ rewrite Hs; reflexivity | exact Ht ].
      * destruct (suffixes_head _ _ _ Hbelow) as [Hs' Ht'].
        split; cbn; [ exact Hs' | rewrite Ht'; reflexivity ].
Qed.

Lemma script_rows_edits (a b : string) :
  Forall2 (edits a) (suffixes b) (script_rows a b).
Proof.
  induction a as [ | x a IH ]; cbn [script_rows].
  - apply first_row_edits.
  - apply next_row_edits, IH.
Qed.

Lemma edit_script_edits (a b : string) : edits a b (edit_script a b).
Proof. apply (suffixes_head (edits a)), script_rows_edits. Qed.

(** ** Runs keep the characters of the script *)

Section Selected.

(** A choice of runs by their type only. *)
Variable chosen : CharChangeType -> bool.

Lemma same_kind_type (x y : Change) :
  same_kind x y = true -> type_of_run x = type_of_run y.
Proof.
  unfold same_kind, type_of_run. intros H.
  apply andb_true_iff in H as [Ha Hr].
  apply Bool.eqb_prop in Ha, Hr. rewrite Ha, Hr. reflexivity.
Qed.

Lemma runs_chosen_values (script : list Edit) :
  chosen_values chosen (runs script) = chosen_characters chosen script.
Proof.
  induction script as [ | e rest IH ]; [ reflexivity | ].
  unfold chosen_characters in *. cbn [map]. rewrite concat_empty_cons, <- IH.
  unfold chosen_values. cbn [runs].
  destruct (runs rest) as [ | r rs ].
  - cbn [filter map]. destruct (chosen (type_of_run (run_of e))); cbn;
      rewrite ?append_empty_r; reflexivity.
  - destruct (same_kind (run_of e) r) eqn:Hkind.
    + apply same_kind_type in Hkind. cbn [filter].
      replace (type_of_run {| ch_value := ch_value (run_of e) ++ ch_value r;
                              ch_added := ch_added r;
                              ch_removed := ch_removed r |})
        with (type_of_run r) by reflexivity.
      rewrite Hkind.
      destruct (chosen (type_of_run r)); [ | reflexivity ].
      cbn [map ch_value]. rewrite !concat_empty_cons, append_associative. reflexivity.
    + cbn [filter].
      destruct (chosen (type_of_run (run_of e))); [ | reflexivity ].
      cbn [map]. rewrite concat_empty_cons. reflexivity.
Qed.

Lemma convert_runs_chosen (changes : list Change) :
  forall (charChanges : list CharChange) (currentIndex : Z),
    String.concat ""
      (map cc_value (filter (fun c => chosen (cc_type c))
                       (convert_runs changes charChanges currentIndex)))
    = String.concat "" (map cc_value (filter (fun c => chosen (cc_type c)) charChanges))
      ++ chosen_values chosen changes.
Proof.
  induction changes as [ | change rest IH ]; intros charChanges currentIndex.
  - cbn [convert_runs]. unfold chosen_values. cbn. rewrite append_empty_r. reflexivity.
  - cbn [convert_runs]. rewrite IH.
    rewrite filter_app, map_app, concat_empty_app, append_associative. f_equal.
    unfold chosen_values. cbn [filter convertToCharChange cc_type].
    change (if ch_added change then cc_add
            else if ch_removed change then cc_remove else cc_equal)
      with (type_of_run change).
    destruct (chosen (type_of_run change)); [ | reflexivity ].
    cbn [map]. rewrite !concat_empty_cons. cbn [String.concat cc_value].
    rewrite append_empty_r. reflexivity.
Qed.

End Selected.

Lemma chosen_characters_target (script : list Edit) :
  chosen_characters (fun t => match t with cc_remove => false | _ => true end) script
  = script_target script.
Proof.
  unfold chosen_characters.
  induction script as [ | e rest IH ]; [ reflexivity | ].
  cbn [map]. rewrite concat_empty_cons, IH. destruct e; reflexivity.
Qed.

Lemma chosen_characters_source (script : list Edit) :
  chosen_characters (fun t => match t with cc_add => false | _ => true end) script
  = script_source script.
Proof.
  unfold chosen_characters.
  induction script as [ | e rest IH ]; [ reflexivity | ].
  cbn [map]. rewrite concat_empty_cons, IH. destruct e; reflexivity.
Qed.

(** C5: for all strings a and b, joining in order the values of the runs
    of [calculateCharLevelDiff a b] that are not of type remove gives b,
    joining those that are not of type add gives a, and for "abc" and "abd"
    the runs are equal "ab", remove "c", add "d", in this order. *)
Theorem char_runs_rebuild_both_texts :
  forall a b : string,
    String.concat ""
      (map cc_value
         (filter (fun c => match cc_type c with cc_remove => false | _ => true end)
            (calculateCharLevelDiff diffChars_minimal a b))) = b
    /\ String.concat ""
         (map cc_value
            (filter (fun c => match cc_type c with cc_add => false | _ => true end)
               (calculateCharLevelDiff diffChars_minimal a b))) = a
    /\ calculateCharLevelDiff diffChars_minimal "abc" "abd"
       = [ {| cc_type := cc_equal; cc_value := "ab"; cc_startIndex := 0; cc_length := 2 |};
           {| cc_type := cc_remove; cc_value := "c"; cc_startIndex := 2; cc_length := 1 |};
           {| cc_type := cc_add; cc_value := "d"; cc_startIndex := -1; cc_length := 1 |} ].
Proof.
  intros a b. unfold calculateCharLevelDiff, diffChars_minimal.
  destruct (edit_script_edits a b) as [Hsource Htarget].
  split; [ | split ].
  - rewrite (convert_runs_chosen
               (fun t => match t with cc_remove => false | _ => true end)).
    cbn [filter map String.concat append].
    rewrite runs_chosen_values, chosen_characters_target. exact Htarget.
  - rewrite (convert_runs_chosen
               (fun t => match t with cc_add => false | _ => true end)).
    cbn [filter map String.concat append].
    rewrite runs_chosen_values, chosen_characters_source. exact Hsource.
  - vm_compute. reflexivity.
Qed.

(** ** Equal documents *)

Lemma deep_equal_refl (v : JSValue) : deep_equal v v = true.
Proof.
  induction v as [ | b | n | s | items IH | props IH ] using JSValue_ind; cbn [deep_equal].
  - reflexivity.
  - apply Bool.eqb_reflx.
  - apply Z.eqb_refl.
  - apply String.eqb_refl.
  - induction IH as [ | x xs Hx _ IHxs ]; [ reflexivity | ].
    rewrite Hx, IHxs. reflexivity.
  - rewrite Nat.eqb_refl. cbn [andb].
    apply forallb_forall. intros p Hp.
    apply existsb_exists. exists p. split; [ exact Hp | ].
    rewrite String.eqb_refl. cbn [andb].
    rewrite Forall_forall in IH. apply (IH p Hp).
Qed.

Lemma diff_at_equal (depth : nat) (v : JSValue) : diff_at depth (Some v) (Some v) = None.
Proof. destruct depth; cbn [diff_at]; rewrite deep_equal_refl; reflexivity. Qed.

Lemma jsondiffpatch_diff_equal (v : JSValue) :
  jsondiffpatch_diff (Some v) (Some v) = None.
Proof. apply diff_at_equal. Qed.

(** C4: for every text a that parses, comparing a with itself gives a
    completed comparison with no differences and a summary whose four
    counts are zero. *)
Theorem same_text_no_differences :
  forall (JSON_parse : string -> string + JSValue) (clock : Clock)
         (a : string) (o : PartialDiffOptions) (v : JSValue),
    JSON_parse a = inr v ->
    differences (calculateDiffSync JSON_parse jsondiffpatch_diff clock a a o) = []
    /\ totalChanges (summary (calculateDiffSync JSON_parse jsondiffpatch_diff clock a a o)) = 0
    /\ additionCount (summary (calculateDiffSync JSON_parse jsondiffpatch_diff clock a a o)) = 0
    /\ deletionCount (summary (calculateDiffSync JSON_parse jsondiffpatch_diff clock a a o)) = 0
    /\ modificationCount
         (summary (calculateDiffSync JSON_parse jsondiffpatch_diff clock a a o)) = 0
    /\ status (calculateDiffSync JSON_parse jsondiffpatch_diff clock a a o) = completed.
Proof.
  intros JSON_parse clock a o v Hparse.
  unfold calculateDiffSync, validateJSON. rewrite Hparse.
  cbn [isValid negb vr_parsed]. rewrite jsondiffpatch_diff_equal.
  repeat split; reflexivity.
Qed.

(** The text [{"a":[1,2]}] compared with itself. *)
Lemma same_text_no_differences_witness :
  differences (calculateDiffSync JSON_parse_host jsondiffpatch_diff sample_clock
                 text_a_12 text_a_12 no_options) = []
  /\ status (calculateDiffSync JSON_parse_host jsondiffpatch_diff sample_clock
               text_a_12 text_a_12 no_options) = completed.
Proof.
  destruct (same_text_no_differences JSON_parse_host sample_clock text_a_12 no_options
              (JObj [("a", JArr [JNum 1; JNum 2])]) eq_refl)
    as (Hdifferences & _ & _ & _ & _ & Hstatus).
  split; [ exact Hdifferences | exact Hstatus ].
Defined.

(** ** Swapping the two documents: a replaced document *)

(** C6 at the documents [[1]] and ["x"]: the delta of a replaced document
    is the array [[old, new]] itself, [traverse] walks it as if it were a
    nested delta and reads its member [[1]] as the addition of a key; in
    both orders the summary counts one addition and no deletion, so the
    two counts are not swapped. *)
Lemma replaced_document_counts :
  cmp_delta (calculateDiffSync JSON_parse_host jsondiffpatch_diff sample_clock
               "[1]" text_x no_options)
  = Some (JArr [JArr [JNum 1]; JStr "x"])
  /\ summary (calculateDiffSync JSON_parse_host jsondiffpatch_diff sample_clock
                "[1]" text_x no_options)
     = {| totalChanges := 1; additionCount := 1; deletionCount := 0;
          modificationCount := 0; unchangedKeys := None |}
  /\ cmp_delta (calculateDiffSync JSON_parse_host jsondiffpatch_diff sample_clock
                  text_x "[1]" no_options)
     = Some (JArr [JStr "x"; JArr [JNum 1]])
  /\ summary (calculateDiffSync JSON_parse_host jsondiffpatch_diff sample_clock
                text_x "[1]" no_options)
     = {| totalChanges := 1; additionCount := 1; deletionCount := 0;
          modificationCount := 0; unchangedKeys := None |}.
Proof. vm_compute. repeat split. Qed.

(** ** The counts of the flattened delta *)

Lemma counts_plus_comm (x y : Counts) : counts_plus x y = counts_plus y x.
Proof. unfold counts_plus. f_equal; lia. Qed.

Lemma counts_plus_assoc (x y z : Counts) :
  counts_plus x (counts_plus y z) = counts_plus (counts_plus x y) z.
Proof. unfold counts_plus. cbn. f_equal; lia. Qed.

Lemma counts_plus_zero_r (x : Counts) : counts_plus x no_counts = x.
Proof. destruct x. unfold counts_plus. cbn. f_equal; lia. Qed.

Lemma counts_plus_zero_l (x : Counts) : counts_plus no_counts x = x.
Proof. destruct x. reflexivity. Qed.

Lemma counts_swap_plus (x y : Counts) :
  counts_swap (counts_plus x y) = counts_plus (counts_swap x) (counts_swap y).
Proof. reflexivity. Qed.

Lemma counts_of_app (xs ys : list DiffChange) :
  counts_of (xs ++ ys) = counts_plus (counts_of xs) (counts_of ys).
Proof.
  unfold counts_of, counts_plus. cbn. rewrite !filter_app, !length_app. reflexivity.
Qed.

Lemma push_change_counts keyPath value changes currentLine :
  counts_of (fst (push_change keyPath value changes currentLine))
  = counts_plus (counts_of changes) (pushed value).
Proof.
  unfold push_change, pushed.
  destruct value as [ | v0 [ | v1 [ | v2 [ | v3 rest ] ] ] ]; cbn [fst];
    rewrite ?counts_plus_zero_r; try reflexivity.
  - rewrite counts_of_app. reflexivity.
  - rewrite counts_of_app. reflexivity.
  - destruct (is_zero v2); cbn [fst]; rewrite ?counts_plus_zero_r; [ | reflexivity ].
    rewrite counts_of_app. reflexivity.
Qed.

Lemma visit_counts descend origNode modNode path key value changes currentLine :
  (forall o m p c l,
      counts_of (fst (descend value o m p c l))
      = counts_plus (counts_of c) (counts_sum member_counts (js_members value))) ->
  counts_of (fst (visit descend origNode modNode path key value changes currentLine))
  = counts_plus (counts_of changes) (member_counts (key, value)).
Proof.
  intros Hdescend. unfold visit, member_counts. cbn [fst snd].
  destruct (String.eqb key "_t"); [ rewrite counts_plus_zero_r; reflexivity | ].
  destruct value; cbn [fst entry_counts]; rewrite ?counts_plus_zero_r; try reflexivity.
  - apply push_change_counts.
  - apply Hdescend.
Qed.

Lemma counts_sum_cons {A : Type} (f : A -> Counts) (a : A) (l : list A) :
  counts_sum f (a :: l) = counts_plus (f a) (counts_sum f l).
Proof. reflexivity. Qed.

Lemma counts_sum_app {A : Type} (f : A -> Counts) (xs ys : list A) :
  counts_sum f (xs ++ ys) = counts_plus (counts_sum f xs) (counts_sum f ys).
Proof.
  induction xs as [ | x xs IH ]; [ cbn; rewrite counts_plus_zero_l; reflexivity | ].
  rewrite <- app_comm_cons, !counts_sum_cons, IH. apply counts_plus_assoc.
Qed.

Lemma string_members_counts (i : nat) (chars : list string) :
  counts_sum member_counts (indexed i (map JStr chars)) = no_counts.
Proof.
  revert i. induction chars as [ | c chars IH ]; intros i; [ reflexivity | ].
  cbn [map indexed]. rewrite counts_sum_cons, IH.
  unfold member_counts. cbn [fst snd entry_counts].
  destruct (String.eqb _ _); reflexivity.
Qed.

Lemma traverse_counts :
  forall deltaNode origNode modNode path changes lineNum,
    counts_of (fst (traverse deltaNode origNode modNode path changes lineNum))
    = counts_plus (counts_of changes) (counts_sum member_counts (js_members deltaNode)).
Proof.
  induction deltaNode as [ | b | n | s | items IHitems | props IHprops ] using JSValue_ind;
    intros origNode modNode path changes lineNum;
    try (cbn; rewrite counts_plus_zero_r; reflexivity).
  - cbn [traverse js_members fst].
    rewrite string_members_counts, counts_plus_zero_r. reflexivity.
  - cbn [traverse js_members]. generalize 0 as i.
    revert changes lineNum.
    induction IHitems as [ | value rest Hvalue _ IHrest ]; intros changes lineNum i.
    + cbn. rewrite counts_plus_zero_r. reflexivity.
    + cbn [indexed]. rewrite counts_sum_cons.
      cbn -[visit traverse member_counts string_of_nat counts_sum].
      destruct (visit traverse origNode modNode path (string_of_nat i) value changes lineNum)
        as [changes' currentLine'] eqn:Hvisit.
      rewrite IHrest.
      change changes' with (fst (changes', currentLine')). rewrite <- Hvisit.
      rewrite visit_counts by (intros; apply Hvalue).
      rewrite counts_plus_assoc. reflexivity.
  - cbn [traverse js_members].
    revert changes lineNum.
    induction IHprops as [ | [key value] rest Hvalue _ IHrest ]; intros changes lineNum.
    + cbn. rewrite counts_plus_zero_r. reflexivity.
    + rewrite counts_sum_cons.
      cbn -[visit traverse member_counts counts_sum].
      destruct (visit traverse origNode modNode path key value changes lineNum)
        as [changes' currentLine'] eqn:Hvisit.
      rewrite IHrest.
      change changes' with (fst (changes', currentLine')). rewrite <- Hvisit.
      rewrite visit_counts by (intros; apply Hvalue).
      rewrite counts_plus_assoc. reflexivity.
Qed.

(** The counts of the summary are those of the members of the delta. *)
Lemma parseDeltaToDiffChanges_counts (delta : JSValue) original modified :
  js_falsy delta = false ->
  counts_of (parseDeltaToDiffChanges (Some delta) original modified)
  = counts_sum member_counts (js_members delta).
Proof.
  intros Htruthy. unfold parseDeltaToDiffChanges. cbn [js_not]. rewrite Htruthy.
  rewrite traverse_counts. apply counts_plus_zero_l.
Qed.

Lemma counts_sum_Permutation {A : Type} (f : A -> Counts) (xs ys : list A) :
  Permutation xs ys -> counts_sum f xs = counts_sum f ys.
Proof.
  induction 1 as [ | x xs ys _ IH | x y xs | xs ys zs _ IH1 _ IH2 ].
  - reflexivity.
  - rewrite !counts_sum_cons, IH. reflexivity.
  - rewrite !counts_sum_cons, !counts_plus_assoc, (counts_plus_comm (f y)). reflexivity.
  - rewrite IH1. exact IH2.
Qed.

Lemma counts_sum_ext {A : Type} (f g : A -> Counts) (xs : list A) :
  (forall x, In x xs -> f x = g x) -> counts_sum f xs = counts_sum g xs.
Proof.
  induction xs as [ | x xs IH ]; intros H; [ reflexivity | ].
  rewrite !counts_sum_cons, (H x (or_introl eq_refl)), IH; [ reflexivity | ].
  intros y Hy. apply H. right. exact Hy.
Qed.

Lemma counts_sum_swap {A : Type} (f : A -> Counts) (xs : list A) :
  counts_swap (counts_sum f xs) = counts_sum (fun x => counts_swap (f x)) xs.
Proof.
  induction xs as [ | x xs IH ]; [ reflexivity | ].
  rewrite !counts_sum_cons, counts_swap_plus, IH. reflexivity.
Qed.

(** ** Distinct keys *)

Lemma distinct_NoDup (keys : list string) : distinct keys = true -> NoDup keys.
Proof.
  induction keys as [ | k rest IH ]; intros H; [ constructor | ].
  cbn [distinct] in H. apply andb_true_iff in H as [Hk Hrest].
  constructor; [ | apply IH, Hrest ].
  intros Hin. apply negb_true_iff in Hk.
  assert (existsb (String.eqb k) rest = true) as Hex; [ | congruence ].
  apply existsb_exists. exists k. split; [ exact Hin | apply String.eqb_refl ].
Qed.

Lemma NoDup_distinct (keys : list string) : NoDup keys -> distinct keys = true.
Proof.
  induction 1 as [ | k rest Hk _ IH ]; [ reflexivity | ].
  cbn [distinct]. rewrite IH, andb_true_r. apply negb_true_iff.
  destruct (existsb (String.eqb k) rest) eqn:Hex; [ | reflexivity ].
  apply existsb_exists in Hex as (k' & Hin & Heq).
  apply String.eqb_eq in Heq. subst k'. contradiction.
Qed.

Lemma key_determines_member {A : Type} (props : list (string * A)) (p q : string * A) :
  NoDup (map fst props) -> In p props -> In q props -> fst p = fst q -> p = q.
Proof.
  induction props as [ | r rest IH ]; intros Hnodup Hp Hq Hkey; [ contradiction | ].
  cbn [map] in Hnodup. inversion Hnodup as [ | k ks Hnotin Hrest ]; subst.
  destruct Hp as [ Hp | Hp ], Hq as [ Hq | Hq ].
  - congruence.
  - subst r. exfalso. apply Hnotin. rewrite Hkey. apply in_map, Hq.
  - subst r. exfalso. apply Hnotin. rewrite <- Hkey. apply in_map, Hp.
  - apply IH; assumption.
Qed.

Lemma lookup_In {A : Type} (key : string) (props : list (string * A)) (x : A) :
  lookup key props = Some x -> In (key, x) props.
Proof.
  induction props as [ | [k y] rest IH ]; cbn [lookup]; [ discriminate | ].
  destruct (String.eqb_spec k key) as [ Hk | Hk ].
  - intros [= ->]. subst k. left. reflexivity.
  - intros H. right. apply IH, H.
Qed.

Lemma lookup_None {A : Type} (key : string) (props : list (string * A)) :
  lookup key props = None <-> ~ In key (map fst props).
Proof.
  induction props as [ | [k y] rest IH ]; cbn [lookup map fst In].
  - split; [ intros _ [] | reflexivity ].
  - destruct (String.eqb_spec k key) as [ Hk | Hk ].
    + split; [ discriminate | intros H; exfalso; apply H; left; exact Hk ].
    + rewrite IH. split; [ intros H [ Hin | Hin ]; contradiction | intros H Hin; apply H; right; exact Hin ].
Qed.

Lemma deep_equal_sym (x : JSValue) :
  forall y : JSValue,
    unique_keys x = true -> unique_keys y = true ->
    deep_equal x y = true -> deep_equal y x = true.
Proof.
  induction x as [ | b | n | s | xs IH | ps IH ] using JSValue_ind;
    intros [ | b' | n' | s' | ys | qs ] Hx Hy; cbn [deep_equal]; try discriminate;
    try reflexivity.
  - intros H. apply Bool.eqb_prop in H. subst. apply Bool.eqb_reflx.
  - intros H. apply Z.eqb_eq in H. subst. apply Z.eqb_refl.
  - intros H. apply String.eqb_eq in H. subst. apply String.eqb_refl.
  - cbn [unique_keys] in Hx, Hy. revert ys Hx Hy.
    induction IH as [ | x xs Hhead _ IHxs ]; intros [ | y ys ] Hx Hy; try discriminate;
      [ reflexivity | ].
    cbn [forallb] in Hx, Hy.
    apply andb_true_iff in Hx as [Hx Hxs], Hy as [Hy Hys].
    intros H. apply andb_true_iff in H as [Hxy Hrest].
    rewrite (Hhead y Hx Hy Hxy). cbn [andb]. apply IHxs; assumption.
  - cbn [unique_keys] in Hx, Hy.
    apply andb_true_iff in Hx as [Hpkeys Hps], Hy as [Hqkeys Hqs].
    apply distinct_NoDup in Hpkeys, Hqkeys.
    rewrite forallb_forall in Hps, Hqs. rewrite Forall_forall in IH.
    intros H. apply andb_true_iff in H as [Hlen Hall].
    apply Nat.eqb_eq in Hlen. rewrite forallb_forall in Hall.
    apply andb_true_iff. split; [ apply Nat.eqb_eq; symmetry; exact Hlen | ].
    assert (incl (map fst qs) (map fst ps)) as Hincl.
    { apply NoDup_length_incl; [ exact Hpkeys | rewrite !length_map; lia | ].
      intros k Hk. apply in_map_iff in Hk as (p & <- & Hp).
      specialize (Hall p Hp). apply existsb_exists in Hall as (q & Hq & Hpq).
      apply andb_true_iff in Hpq as [Hkey _]. apply String.eqb_eq in Hkey.
      rewrite Hkey. apply in_map, Hq. }
    apply forallb_forall. intros q Hq.
    assert (In (fst q) (map fst ps)) as Hk by (apply Hincl, in_map, Hq).
    apply in_map_iff in Hk as (p & Hkey & Hp).
    apply existsb_exists. exists p. split; [ exact Hp | ].
    rewrite Hkey, String.eqb_refl. cbn [andb].
    pose proof (Hall p Hp) as Hmatch.
    apply existsb_exists in Hmatch as (q' & Hq' & Hpq').
    apply andb_true_iff in Hpq' as [Hkey' Hequal]. apply String.eqb_eq in Hkey'.
    assert (q' = q) as ->.
    { apply (key_determines_member qs); [ assumption .. | congruence ]. }
    apply (IH p Hp); [ apply Hps, Hp | apply Hqs, Hq | exact Hequal ].
Qed.

Lemma deep_equal_comm (x y : JSValue) :
  unique_keys x = true -> unique_keys y = true -> deep_equal x y = deep_equal y x.
Proof.
  intros Hx Hy.
  destruct (deep_equal x y) eqn:Hxy, (deep_equal y x) eqn:Hyx; try reflexivity.
  - rewrite (deep_equal_sym x y Hx Hy Hxy) in Hyx. discriminate.
  - rewrite (deep_equal_sym y x Hy Hx Hyx) in Hxy. discriminate.
Qed.

Lemma string_of_nat_inj (i j : nat) : string_of_nat i = string_of_nat j -> i = j.
Proof.
  unfold string_of_nat. intros H.
  apply (f_equal NilEmpty.uint_of_string) in H. rewrite !NilEmpty.usu in H.
  injection H as H. apply DecimalNat.Unsigned.to_uint_inj, H.
Qed.

Lemma string_of_nat_not_marker (i : nat) : string_of_nat i <> "_t".
Proof.
  unfold string_of_nat. intros H.
  apply (f_equal NilEmpty.uint_of_string) in H. rewrite NilEmpty.usu in H.
  discriminate H.
Qed.

Lemma indexed_keys {A : Type} (i : nat) (xs : list A) :
  map fst (indexed i xs) = map string_of_nat (seq i (List.length xs)).
Proof.
  revert i. induction xs as [ | x xs IH ]; intros i; [ reflexivity | ].
  cbn [indexed map fst List.length seq]. rewrite IH. reflexivity.
Qed.

Lemma indexed_NoDup {A : Type} (i : nat) (xs : list A) : NoDup (map fst (indexed i xs)).
Proof.
  rewrite indexed_keys. apply Finite.Injective_map_NoDup; [ | apply seq_NoDup ].
  intros x y. apply string_of_nat_inj.
Qed.

Lemma indexed_In {A : Type} (i : nat) (xs : list A) (kv : string * A) :
  In kv (indexed i xs) -> In (snd kv) xs.
Proof.
  revert i. induction xs as [ | x xs IH ]; intros i; [ intros [] | ].
  cbn [indexed]. intros [ <- | H ]; [ left; reflexivity | right; apply (IH (S i)), H ].
Qed.

Lemma lookup_unique_keys (key : string) (props : list (string * JSValue)) :
  forallb (fun kv => unique_keys (snd kv)) props = true ->
  unique_keys_opt (lookup key props).
Proof.
  intros Hprops. destruct (lookup key props) as [ x | ] eqn:Hlookup; [ | exact I ].
  apply lookup_In in Hlookup. rewrite forallb_forall in Hprops.
  apply (Hprops (key, x) Hlookup).
Qed.

Lemma indexed_unique_keys (i : nat) (items : list JSValue) :
  forallb unique_keys items = true ->
  forallb (fun kv => unique_keys (snd kv)) (indexed i items) = true.
Proof.
  intros Hitems. rewrite forallb_forall in *. intros kv Hkv.
  apply Hitems, (indexed_In i), Hkv.
Qed.

(** ** Objects built by setting keys *)

(** Setting a new key permutes the members. *)
Lemma js_set_new (key : string) (value : JSValue) (props : list (string * JSValue)) :
  ~ In key (map fst props) -> Permutation (js_set key value props) ((key, value) :: props).
Proof.
  induction props as [ | [k x] rest IH ]; intros Hnew; [ apply Permutation_refl | ].
  cbn [map fst In] in Hnew. cbn [js_set].
  destruct (String.eqb_spec k key) as [ Hk | Hk ]; [ exfalso; apply Hnew; left; exact Hk | ].
  assert (~ In key (map fst rest)) as Hrest by (intros H; apply Hnew; right; exact H).
  assert (Permutation ((k, x) :: js_set key value rest) ((key, value) :: (k, x) :: rest)) as Hstep.
  { eapply perm_trans; [ apply perm_skip, IH, Hrest | apply perm_swap ]. }
  unfold has_key. rewrite (proj2 (lookup_None key rest) Hrest).
  destruct (index_of_key key) as [ n | ]; [ | exact Hstep ].
  destruct (index_of_key k) as [ m | ]; [ | apply Permutation_refl ].
  destruct (n <? m)%N; [ apply Permutation_refl | exact Hstep ].
Qed.

Lemma fold_js_set (entries : list (string * JSValue)) :
  forall props : list (string * JSValue),
    NoDup (map fst props ++ map fst entries) ->
    Permutation (fold_left (fun acc kv => js_set (fst kv) (snd kv) acc) entries props)
                (props ++ entries).
Proof.
  induction entries as [ | [k x] rest IH ]; intros props Hnodup.
  - cbn. rewrite app_nil_r. apply Permutation_refl.
  - cbn [fold_left fst snd].
    assert (~ In k (map fst props)) as Hnew.
    { intros Hin. cbn [map fst] in Hnodup. apply NoDup_remove_2 in Hnodup.
      apply Hnodup, in_or_app. left. exact Hin. }
    eapply perm_trans.
    + apply IH. cbn [map fst] in Hnodup.
      pose proof (js_set_new k x props Hnew) as Hperm.
      apply (Permutation_map fst) in Hperm. cbn [map fst] in Hperm.
      apply (Permutation_NoDup (l := k :: map fst props ++ map fst rest)).
      * apply Permutation_app_tail with (tl := map fst rest) in Hperm.
        apply Permutation_sym. exact Hperm.
      * apply (Permutation_NoDup (l := map fst props ++ k :: map fst rest));
          [ apply Permutation_sym, Permutation_middle | exact Hnodup ].
    + eapply perm_trans;
        [ apply Permutation_app_tail, js_set_new, Hnew | ].
      cbn. apply Permutation_middle.
Qed.

Lemma js_object_Permutation (entries : list (string * JSValue)) :
  NoDup (map fst entries) -> Permutation (js_object entries) entries.
Proof. intros H. apply (fold_js_set entries []). exact H. Qed.

Lemma js_set_In (key : string) (value : JSValue) (props : list (string * JSValue))
    (kv : string * JSValue) :
  In kv (js_set key value props) -> snd kv = value \/ In kv props.
Proof.
  induction props as [ | [k x] rest IH ]; cbn [js_set].
  - intros [ <- | [] ]. left. reflexivity.
  - destruct (String.eqb k key).
    + intros [ <- | H ]; [ left; reflexivity | right; right; exact H ].
    + assert (In kv ((k, x) :: js_set key value rest) -> snd kv = value \/ In kv ((k, x) :: rest))
        as Hstep.
      { intros [ <- | H ]; [ right; left; reflexivity | ].
        destruct (IH H) as [ Hv | Hin ]; [ left; exact Hv | right; right; exact Hin ]. }
      assert (In kv ((key, value) :: (k, x) :: rest) -> snd kv = value \/ In kv ((k, x) :: rest))
        as Hhere.
      { intros [ <- | H ]; [ left; reflexivity | right; exact H ]. }
      destruct (has_key key rest); [ exact Hstep | ].
      destruct (index_of_key key); [ | exact Hstep ].
      destruct (index_of_key k); [ | exact Hhere ].
      destruct (_ <? _)%N; [ exact Hhere | exact Hstep ].
Qed.

Lemma js_set_present (key : string) (value : JSValue) (props : list (string * JSValue)) :
  In key (map fst props) -> map fst (js_set key value props) = map fst props.
Proof.
  induction props as [ | [k x] rest IH ]; [ intros [] | ].
  cbn [map fst js_set]. intros Hin.
  destruct (String.eqb_spec k key) as [ Hk | Hk ]; [ reflexivity | ].
  destruct Hin as [ Hin | Hin ]; [ contradiction | ].
  unfold has_key. destruct (lookup key rest) eqn:Hlookup.
  - cbn [map fst]. rewrite (IH Hin). reflexivity.
  - apply lookup_None in Hlookup. contradiction.
Qed.

Lemma js_set_NoDup (key : string) (value : JSValue) (props : list (string * JSValue)) :
  NoDup (map fst props) -> NoDup (map fst (js_set key value props)).
Proof.
  intros Hprops. destruct (in_dec string_dec key (map fst props)) as [ Hin | Hnew ].
  - rewrite js_set_present by exact Hin. exact Hprops.
  - pose proof (js_set_new key value props Hnew) as Hperm.
    apply (Permutation_map fst) in Hperm.
    apply (Permutation_NoDup (Permutation_sym Hperm)).
    cbn [map fst]. constructor; assumption.
Qed.

Lemma js_set_unique_keys (key : string) (value : JSValue) (props : list (string * JSValue)) :
  unique_keys value = true ->
  unique_keys (JObj props) = true ->
  unique_keys (JObj (js_set key value props)) = true.
Proof.
  cbn [unique_keys]. intros Hvalue Hprops.
  apply andb_true_iff in Hprops as [Hkeys Hmembers].
  apply andb_true_iff. split.
  - apply NoDup_distinct, js_set_NoDup, distinct_NoDup, Hkeys.
  - rewrite forallb_forall in *. intros kv Hkv.
    destruct (js_set_In _ _ _ _ Hkv) as [ -> | Hin ]; [ exact Hvalue | apply Hmembers, Hin ].
Qed.

(** ** Swapping the two documents: two containers *)

Lemma union_keys_In (lo ro : list (string * JSValue)) (k : string) :
  In k (union_keys lo ro) <-> In k (map fst lo) \/ In k (map fst ro).
Proof.
  unfold union_keys. rewrite in_app_iff. split.
  - intros [ H | H ]; [ left; exact H | right ].
    apply in_map_iff in H as (kv & <- & Hkv).
    apply filter_In in Hkv as [Hkv _]. apply in_map, Hkv.
  - intros [ H | H ]; [ left; exact H | ].
    destruct (lookup k lo) as [ x | ] eqn:Hlookup.
    + left. apply lookup_In in Hlookup. apply (in_map fst _ _ Hlookup).
    + right. apply in_map_iff in H as (kv & <- & Hkv).
      apply in_map_iff. exists kv. split; [ reflexivity | ].
      apply filter_In. split; [ exact Hkv | ]. unfold has_key. rewrite Hlookup. reflexivity.
Qed.

Lemma union_keys_NoDup (lo ro : list (string * JSValue)) :
  NoDup (map fst lo) -> NoDup (map fst ro) -> NoDup (union_keys lo ro).
Proof.
  intros Hlo Hro. unfold union_keys. apply NoDup_app; [ exact Hlo | | ].
  - clear Hlo. induction ro as [ | [k x] ro IH ]; [ constructor | ].
    cbn [map fst] in Hro. inversion Hro as [ | k' ks Hnotin Hrest ]; subst.
    cbn [filter fst]. destruct (negb (has_key k lo)); [ | apply IH, Hrest ].
    cbn [map fst]. constructor; [ | apply IH, Hrest ].
    intros Hin. apply Hnotin. apply in_map_iff in Hin as (kv & <- & Hkv).
    apply filter_In in Hkv as [Hkv _]. apply in_map, Hkv.
  - intros k Hk Hin. apply in_map_iff in Hin as (kv & <- & Hkv).
    apply filter_In in Hkv as [_ Hnew]. apply negb_true_iff in Hnew.
    unfold has_key in Hnew. destruct (lookup (fst kv) lo) eqn:Hlookup; [ discriminate | ].
    apply lookup_None in Hlookup. contradiction.
Qed.

Lemma union_keys_Permutation (lo ro : list (string * JSValue)) :
  NoDup (map fst lo) -> NoDup (map fst ro) ->
  Permutation (union_keys lo ro) (union_keys ro lo).
Proof.
  intros Hlo Hro. apply NoDup_Permutation; try (apply union_keys_NoDup; assumption).
  intros k. rewrite !union_keys_In. tauto.
Qed.

Section Container.

Variable child : option JSValue -> option JSValue -> option JSValue.
Variables lo ro : list (string * JSValue).

Lemma entries_for_keys (keys : list string) (k : string) :
  In k (map fst (entries_for child lo ro keys)) -> In k keys.
Proof.
  induction keys as [ | key keys IH ]; [ intros [] | ].
  unfold entries_for. cbn [flat_map]. rewrite map_app, in_app_iff.
  intros [ H | H ]; [ left | right; apply IH, H ].
  destruct (child (lookup key lo) (lookup key ro)); [ | destruct H ].
  destruct H as [ H | [] ]. exact H.
Qed.

Lemma entries_for_NoDup (keys : list string) :
  NoDup keys -> NoDup (map fst (entries_for child lo ro keys)).
Proof.
  induction 1 as [ | key keys Hnew _ IH ]; [ constructor | ].
  unfold entries_for. cbn [flat_map].
  destruct (child (lookup key lo) (lookup key ro)); [ | exact IH ].
  cbn [app map fst]. constructor; [ | exact IH ].
  intros Hin. apply Hnew, entries_for_keys, Hin.
Qed.

Lemma entries_for_counts (keys : list string) :
  counts_sum member_counts (entries_for child lo ro keys)
  = counts_sum (fun key => if String.eqb key "_t" then no_counts
                           else delta_counts (child (lookup key lo) (lookup key ro)))
      keys.
Proof.
  induction keys as [ | key keys IH ]; [ reflexivity | ].
  unfold entries_for. cbn [flat_map]. rewrite counts_sum_app, counts_sum_cons.
  fold (entries_for child lo ro keys). rewrite IH. f_equal.
  destruct (child (lookup key lo) (lookup key ro)) as [ d | ]; cbn [delta_counts].
  - rewrite counts_sum_cons. unfold member_counts. cbn [fst snd counts_sum fold_right].
    apply counts_plus_zero_r.
  - cbn. destruct (String.eqb key "_t"); reflexivity.
Qed.

End Container.

Lemma container_delta_swap (child : option JSValue -> option JSValue -> option JSValue)
    (lo ro : list (string * JSValue)) :
  NoDup (map fst lo) -> NoDup (map fst ro) ->
  (forall key,
      delta_counts (child (lookup key lo) (lookup key ro))
      = counts_swap (delta_counts (child (lookup key ro) (lookup key lo)))) ->
  counts_sum member_counts (container_delta child lo ro)
  = counts_swap (counts_sum member_counts (container_delta child ro lo)).
Proof.
  intros Hlo Hro Hchild.
  change (container_delta child lo ro) with (entries_for child lo ro (union_keys lo ro)).
  change (container_delta child ro lo) with (entries_for child ro lo (union_keys ro lo)).
  rewrite !entries_for_counts, counts_sum_swap.
  rewrite (counts_sum_Permutation _ _ _ (union_keys_Permutation lo ro Hlo Hro)).
  apply counts_sum_ext. intros key _.
  destruct (String.eqb key "_t"); [ reflexivity | apply Hchild ].
Qed.

Lemma container_delta_NoDup child lo ro :
  NoDup (map fst lo) -> NoDup (map fst ro) ->
  NoDup (map fst (container_delta child lo ro)).
Proof.
  intros Hlo Hro.
  change (container_delta child lo ro) with (entries_for child lo ro (union_keys lo ro)).
  apply entries_for_NoDup, union_keys_NoDup; assumption.
Qed.

Lemma container_delta_no_marker child (items items' : list JSValue) :
  ~ In "_t" (map fst (container_delta child (indexed 0 items) (indexed 0 items'))).
Proof.
  intros Hin.
  change (container_delta child (indexed 0 items) (indexed 0 items'))
    with (entries_for child (indexed 0 items) (indexed 0 items')
            (union_keys (indexed 0 items) (indexed 0 items'))) in Hin.
  apply entries_for_keys, union_keys_In in Hin.
  rewrite !indexed_keys, !in_map_iff in Hin.
  destruct Hin as [ (i & Hi & _) | (i & Hi & _) ]; apply (string_of_nat_not_marker i Hi).
Qed.

Lemma object_counts (entries : list (string * JSValue)) :
  NoDup (map fst entries) ->
  entry_counts (JObj (js_object entries)) = counts_sum member_counts entries.
Proof.
  intros Hentries.
  change (entry_counts (JObj (js_object entries)))
    with (counts_sum member_counts (js_object entries)).
  apply counts_sum_Permutation, js_object_Permutation, Hentries.
Qed.

(** The counts of a delta and of the delta taken in the other order are
    each other's swap, at every depth, on values with distinct keys. *)
Lemma diff_at_swap (depth : nat) :
  forall left right : option JSValue,
    unique_keys_opt left -> unique_keys_opt right ->
    delta_counts (diff_at depth left right)
    = counts_swap (delta_counts (diff_at depth right left)).
Proof.
  induction depth as [ | d IH ]; intros [ l | ] [ r | ] Hl Hr; try reflexivity;
    cbn [unique_keys_opt] in Hl, Hr; cbn [diff_at];
    rewrite (deep_equal_comm r l Hr Hl);
    destruct (deep_equal l r); try reflexivity.
  destruct l as [ | bl | nl | sl | la | lo ], r as [ | br | nr | sr | ra | ro ];
    try reflexivity.
  - cbn [unique_keys] in Hl, Hr. cbn [delta_counts].
    rewrite !object_counts
      by (cbn [map fst]; constructor;
          [ apply container_delta_no_marker
          | apply container_delta_NoDup; apply indexed_NoDup ]).
    rewrite !counts_sum_cons.
    change (member_counts ("_t", JStr "a")) with no_counts.
    rewrite !counts_plus_zero_l.
    apply container_delta_swap; try apply indexed_NoDup.
    intros key. apply IH; apply lookup_unique_keys, indexed_unique_keys; assumption.
  - cbn [unique_keys] in Hl, Hr.
    apply andb_true_iff in Hl as [Hlkeys Hl], Hr as [Hrkeys Hr].
    apply distinct_NoDup in Hlkeys, Hrkeys.
    cbn [delta_counts].
    rewrite !object_counts by (apply container_delta_NoDup; assumption).
    apply container_delta_swap; try assumption.
    intros key. apply IH; apply lookup_unique_keys; assumption.
Qed.

Lemma diff_at_container (d : nat) (a b : JSValue) :
  both_containers a b = true ->
  diff_at (S d) (Some a) (Some b) = None
  \/ exists entries, diff_at (S d) (Some a) (Some b) = Some (JObj entries).
Proof.
  intros Hboth. cbn [diff_at]. destruct (deep_equal a b); [ left; reflexivity | right ].
  destruct a, b; try discriminate Hboth; eexists; reflexivity.
Qed.

Lemma flattened_delta_counts (d : nat) (a b : JSValue) original modified :
  both_containers a b = true ->
  counts_of (parseDeltaToDiffChanges
               (delta_or_empty (diff_at (S d) (Some a) (Some b))) original modified)
  = delta_counts (diff_at (S d) (Some a) (Some b)).
Proof.
  intros Hboth.
  destruct (diff_at_container d a b Hboth) as [ -> | (entries & ->) ].
  - reflexivity.
  - unfold delta_or_empty. cbn [js_not js_falsy].
    rewrite parseDeltaToDiffChanges_counts by reflexivity. reflexivity.
Qed.

Lemma MAX_DEPTH_positive : exists d : nat, MAX_DEPTH = S d.
Proof. exists 999. reflexivity. Qed.

Lemma both_containers_comm (a b : JSValue) : both_containers a b = both_containers b a.
Proof. destruct a, b; reflexivity. Qed.

(** Symmetry of the counts on containers: when the two texts parse to two
    objects or to two arrays (whose objects have distinct keys, as parsed
    objects have), comparing them in the other order exchanges
    additionCount and deletionCount and keeps modificationCount. *)
Theorem counts_swap_between_containers :
  forall (JSON_parse : string -> string + JSValue) (clock1 clock2 : Clock)
         (a b : string) (o1 o2 : PartialDiffOptions) (va vb : JSValue),
    JSON_parse a = inr va ->
    JSON_parse b = inr vb ->
    unique_keys va = true ->
    unique_keys vb = true ->
    both_containers va vb = true ->
    additionCount (summary (calculateDiffSync JSON_parse jsondiffpatch_diff clock1 a b o1))
    = deletionCount (summary (calculateDiffSync JSON_parse jsondiffpatch_diff clock2 b a o2))
    /\ deletionCount (summary (calculateDiffSync JSON_parse jsondiffpatch_diff clock1 a b o1))
       = additionCount (summary (calculateDiffSync JSON_parse jsondiffpatch_diff clock2 b a o2))
    /\ modificationCount
         (summary (calculateDiffSync JSON_parse jsondiffpatch_diff clock1 a b o1))
       = modificationCount
           (summary (calculateDiffSync JSON_parse jsondiffpatch_diff clock2 b a o2)).
Proof.
  intros JSON_parse clock1 clock2 a b o1 o2 va vb Ha Hb Hva Hvb Hboth.
  unfold calculateDiffSync, validateJSON. rewrite Ha, Hb.
  cbn [isValid negb vr_parsed summary].
  unfold jsondiffpatch_diff. destruct MAX_DEPTH_positive as [d Hd]. rewrite Hd.
  set (forward := parseDeltaToDiffChanges _ (Some va) (Some vb)).
  set (backward := parseDeltaToDiffChanges _ (Some vb) (Some va)).
  assert (counts_of forward = counts_swap (counts_of backward)) as Hcounts.
  { subst forward backward.
    pose proof Hboth as Hboth'. rewrite both_containers_comm in Hboth'.
    rewrite !flattened_delta_counts by assumption.
    apply diff_at_swap; assumption. }
  clearbody forward backward.
  unfold counts_of, counts_swap in Hcounts. cbn in Hcounts.
  injection Hcounts as Hadd Hdel Hmod.
  cbn [calculateSummary additionCount deletionCount modificationCount].
  repeat split; assumption.
Qed.

(** The texts [{"a":1,"b":[1,2]}] and [{"a":2,"b":[1],"c":null}]. *)
Lemma counts_swap_between_containers_witness :
  additionCount (summary (calculateDiffSync JSON_parse_host jsondiffpatch_diff sample_clock
                            text_before text_after no_options))
  = deletionCount (summary (calculateDiffSync JSON_parse_host jsondiffpatch_diff sample_clock
                              text_after text_before no_options)).
Proof.
  apply (counts_swap_between_containers JSON_parse_host sample_clock sample_clock
           text_before text_after no_options no_options
           (JObj [("a", JNum 1); ("b", JArr [JNum 1; JNum 2])])
           (JObj [("a", JNum 2); ("b", JArr [JNum 1]); ("c", JNull)]));
    reflexivity.
Defined.

(** ** The parsed documents have distinct keys *)

Lemma forallb_snoc {A : Type} (f : A -> bool) (xs : list A) (x : A) :
  forallb f xs = true -> f x = true -> forallb f (xs ++ [x]) = true.
Proof. intros Hxs Hx. rewrite forallb_app, Hxs. cbn. rewrite Hx. reflexivity. Qed.

Ltac parse_cases :=
  repeat match goal with
         | H : Parsed _ _ = Parsed _ _ |- _ => injection H as <- <-
         | H : Unexpected _ = Parsed _ _ |- _ => discriminate H
         | H : match ?x with _ => _ end = Parsed _ _ |- _ => destruct x eqn:?
         | H : (if ?x then _ else _) = Parsed _ _ |- _ => destruct x eqn:?
         | H : (let '(_, _) := ?x in _) = Parsed _ _ |- _ => destruct x eqn:?
         end.

Lemma parse_number_unique_keys (s : string) (v : JSValue) (r : string) :
  parse_number s = Parsed v r -> unique_keys v = true.
Proof. unfold parse_number. intros H. parse_cases; reflexivity. Qed.

Lemma parse_unique_keys (fuel : nat) :
  (forall s v r, parse_value fuel s = Parsed v r -> unique_keys v = true)
  /\ (forall acc s v r,
         forallb unique_keys acc = true ->
         parse_elements fuel acc s = Parsed v r -> unique_keys v = true)
  /\ (forall acc s v r,
         unique_keys (JObj acc) = true ->
         parse_members fuel acc s = Parsed v r -> unique_keys v = true).
Proof.
  induction fuel as [ | fuel (IHvalue & IHelements & IHmembers) ].
  - repeat split; intros; discriminate.
  - repeat split.
    + intros s v r H. cbn [parse_value] in H. parse_cases; try reflexivity.
      * eapply IHelements; [ | eassumption ]. reflexivity.
      * eapply IHmembers; [ | eassumption ]. reflexivity.
      * eapply parse_number_unique_keys; eassumption.
    + intros acc s v r Hacc H. cbn [parse_elements] in H. parse_cases.
      * eapply IHelements; [ | eassumption ].
        apply forallb_snoc; [ exact Hacc | eapply IHvalue; eassumption ].
      * cbn [unique_keys].
        apply forallb_snoc; [ exact Hacc | eapply IHvalue; eassumption ].
    + intros acc s v r Hacc H. cbn [parse_members] in H. parse_cases.
      * eapply IHmembers; [ | eassumption ].
        apply js_set_unique_keys; [ eapply IHvalue; eassumption | exact Hacc ].
      * apply js_set_unique_keys; [ eapply IHvalue; eassumption | exact Hacc ].
Qed.

(** Every document that [JSON_parse_host] returns has distinct keys in each
    of its objects. *)
Lemma JSON_parse_host_unique_keys (text : string) (v : JSValue) :
  JSON_parse_host text = inr v -> unique_keys v = true.
Proof.
  unfold JSON_parse_host. intros H.
  destruct (parse_value _ text) as [ x rest | rest ] eqn:Hparse; [ | discriminate ].
  destruct (skip_whitespace rest); [ | discriminate ].
  injection H as <-. eapply (proj1 (parse_unique_keys _)), Hparse.
Qed.

(** ** The scenarios of the specification *)

(** Scenarios 1, 2 and 3: a key added, a key removed, a value changed. *)
Lemma scenarios_one_to_three :
  (map change_outline
     (differences (calculateDiffSync JSON_parse_host jsondiffpatch_diff sample_clock
                     text_a1 text_a1_b2 no_options))
   = [(addition, "b", None, Some (JNum 2))]
   /\ summary (calculateDiffSync JSON_parse_host jsondiffpatch_diff sample_clock
                 text_a1 text_a1_b2 no_options)
      = {| totalChanges := 1; additionCount := 1; deletionCount := 0;
           modificationCount := 0; unchangedKeys := None |})
  /\ map change_outline
       (differences (calculateDiffSync JSON_parse_host jsondiffpatch_diff sample_clock
                       text_a1_b2 text_a1 no_options))
     = [(deletion, "b", Some (JNum 2), None)]
  /\ map change_outline
       (differences (calculateDiffSync JSON_parse_host jsondiffpatch_diff sample_clock
                       text_a1 text_a2 no_options))
     = [(modification, "a", Some (JNum 1), Some (JNum 2))].
Proof. vm_compute. repeat split. Qed.

(** ** The lines of the multi-line character diff *)

Lemma js_split_length (sep : ascii) (s : string) :
  List.length (js_split sep s) = S (occurrences sep s).
Proof.
  induction s as [ | c s IH ]; [ reflexivity | ].
  cbn [js_split occurrences].
  destruct (Ascii.eqb c sep); [ cbn [List.length]; rewrite IH; reflexivity | ].
  destruct (js_split sep s) as [ | segment segments ]; [ discriminate IH | exact IH ].
Qed.

Lemma lines_of_all (lineChange : Change) :
  js_endsWith (ch_value lineChange) newline = true ->
  lines_of lineChange = js_split LF (ch_value lineChange).
Proof.
  intros Hends. unfold lines_of. rewrite Hends.
  induction (js_split LF (ch_value lineChange)) as [ | line rest IH ]; [ reflexivity | ].
  cbn [filter]. rewrite orb_true_r, IH. reflexivity.
Qed.

Section LineLoops.

Variable diffChars : string -> string -> list Change.

Lemma appended_one (lines : list string) (line : string)
    (before after : list CharLevelDiffResult) (r : CharLevelDiffResult) :
  pushed_result diffChars r ->
  appended diffChars lines (before ++ [r]) after ->
  appended diffChars (line :: lines) before after.
Proof.
  intros Hr (pushed & Hafter & Hlength & Hpushed).
  exists (r :: pushed). split; [ | split ].
  - rewrite Hafter, <- app_assoc. reflexivity.
  - cbn [List.length]. rewrite Hlength. reflexivity.
  - constructor; assumption.
Qed.

Lemma appended_none (results : list CharLevelDiffResult) : appended diffChars [] results results.
Proof. exists []. rewrite app_nil_r. repeat split. constructor. Qed.

Lemma added_lines_appended (lines : list string) :
  forall results modifiedLineIndex,
    appended diffChars lines results (fst (added_lines lines results modifiedLineIndex)).
Proof.
  induction lines as [ | line rest IH ]; intros results modifiedLineIndex.
  - apply appended_none.
  - cbn [added_lines]. eapply appended_one; [ | apply IH ]. apply pushed_added.
Qed.

Lemma removed_lines_appended (lines : list string) :
  forall results originalLineIndex,
    appended diffChars lines results (fst (removed_lines lines results originalLineIndex)).
Proof.
  induction lines as [ | line rest IH ]; intros results originalLineIndex.
  - apply appended_none.
  - cbn [removed_lines]. eapply appended_one; [ | apply IH ]. apply pushed_removed.
Qed.

Lemma unchanged_lines_appended (originalLines modifiedLines lines : list string) :
  forall results originalLineIndex modifiedLineIndex,
    appended diffChars lines results
      (fst (fst (unchanged_lines diffChars originalLines modifiedLines lines results
                   originalLineIndex modifiedLineIndex))).
Proof.
  induction lines as [ | line rest IH ];
    intros results originalLineIndex modifiedLineIndex.
  - apply appended_none.
  - cbn -[string_or calculateCharLevelDiff]. eapply appended_one; [ | apply IH ].
    destruct (String.eqb_spec (string_or (nth_error originalLines originalLineIndex) "")
                (string_or (nth_error modifiedLines modifiedLineIndex) line))
      as [ Hsame | Hdiffer ].
    + rewrite <- Hsame. apply pushed_equal.
    + apply pushed_differing, Hdiffer.
Qed.

Lemma line_chunks_appended (originalLines modifiedLines : list string)
    (lineChanges : list Change) :
  forall results originalLineIndex modifiedLineIndex,
    exists pushed : list CharLevelDiffResult,
      line_chunks diffChars originalLines modifiedLines lineChanges results
        originalLineIndex modifiedLineIndex = (results ++ pushed)%list
      /\ List.length pushed
         = list_sum (map (fun lineChange => List.length (lines_of lineChange)) lineChanges)
      /\ Forall (pushed_result diffChars) pushed.
Proof.
  induction lineChanges as [ | lineChange rest IH ];
    intros results originalLineIndex modifiedLineIndex.
  - exists []. cbn. rewrite app_nil_r. repeat split. constructor.
  - cbn [line_chunks map list_sum fold_right].
    assert (Hstep : forall after originalLineIndex' modifiedLineIndex',
               appended diffChars (lines_of lineChange) results after ->
               exists pushed : list CharLevelDiffResult,
                 line_chunks diffChars originalLines modifiedLines rest after
                   originalLineIndex' modifiedLineIndex' = (results ++ pushed)%list
                 /\ List.length pushed
                    = List.length (lines_of lineChange)
                      + list_sum (map (fun lineChange => List.length (lines_of lineChange))
                                    rest)
                 /\ Forall (pushed_result diffChars) pushed).
    { intros after originalLineIndex' modifiedLineIndex' (first & Hafter & Hlength & Hfirst).
      destruct (IH after originalLineIndex' modifiedLineIndex')
        as (others & Hrest & Hothers & Hshapes).
      exists (first ++ others)%list. split; [ | split ].
      - rewrite Hrest, Hafter, <- app_assoc. reflexivity.
      - rewrite length_app, Hlength, Hothers. reflexivity.
      - apply Forall_app. split; assumption. }
    destruct (ch_added lineChange).
    + pose proof (added_lines_appended (lines_of lineChange) results modifiedLineIndex)
        as Hloop.
      destruct (added_lines (lines_of lineChange) results modifiedLineIndex)
        as [results' modifiedLineIndex'].
      apply Hstep, Hloop.
    + destruct (ch_removed lineChange).
      * pose proof (removed_lines_appended (lines_of lineChange) results originalLineIndex)
          as Hloop.
        destruct (removed_lines (lines_of lineChange) results originalLineIndex)
          as [results' originalLineIndex'].
        apply Hstep, Hloop.
      * pose proof (unchanged_lines_appended originalLines modifiedLines
                      (lines_of lineChange) results originalLineIndex modifiedLineIndex)
          as Hloop.
        destruct (unchanged_lines diffChars originalLines modifiedLines
                    (lines_of lineChange) results originalLineIndex modifiedLineIndex)
          as [[results' originalLineIndex'] modifiedLineIndex'].
        apply Hstep, Hloop.
Qed.

End LineLoops.

Lemma calculateMultiLineCharDiff_pushed
    (diffLines diffChars : string -> string -> list Change) (a b : string) :
  List.length (calculateMultiLineCharDiff diffLines diffChars a b)
  = list_sum (map (fun lineChange => List.length (lines_of lineChange)) (diffLines a b))
  /\ Forall (pushed_result diffChars) (calculateMultiLineCharDiff diffLines diffChars a b).
Proof.
  unfold calculateMultiLineCharDiff.
  destruct (line_chunks_appended diffChars (js_split LF a) (js_split LF b) (diffLines a b)
              [] 0 0) as (pushed & Hresults & Hlength & Hshapes).
  rewrite Hresults. cbn [app]. split; assumption.
Qed.

Lemma rebuilt_calculateCharLevelDiff (chosen : CharChangeType -> bool)
    (diffChars : string -> string -> list Change) (a b : string) :
  rebuilt chosen (calculateCharLevelDiff diffChars a b)
  = chosen_values chosen (diffChars a b).
Proof.
  unfold rebuilt, calculateCharLevelDiff. rewrite convert_runs_chosen. reflexivity.
Qed.

Lemma diffChars_minimal_rebuilds_both : rebuilds_both diffChars_minimal.
Proof.
  intros a b. unfold diffChars_minimal.
  destruct (edit_script_edits a b) as [Hsource Htarget].
  rewrite !runs_chosen_values. split.
  - rewrite <- Hsource at 2. apply chosen_characters_source.
  - rewrite <- Htarget at 2. apply chosen_characters_target.
Qed.

(** When the runs of [diffChars] hold the two texts, so do the runs of
    every result of [calculateMultiLineCharDiff] for its two lines: the
    values of the runs that are not additions join to originalLine, those
    of the runs that are not removals to modifiedLine; this for any line
    differ. *)
Theorem line_runs_rebuild_both_lines :
  forall (diffLines diffChars : string -> string -> list Change) (a b : string),
    rebuilds_both diffChars ->
    Forall (fun r : CharLevelDiffResult =>
              rebuilt in_original (charChanges r) = originalLine r
              /\ rebuilt in_modified (charChanges r) = modifiedLine r)
      (calculateMultiLineCharDiff diffLines diffChars a b).
Proof.
  intros diffLines diffChars a b Hboth.
  destruct (calculateMultiLineCharDiff_pushed diffLines diffChars a b) as [_ Hshapes].
  eapply Forall_impl; [ | exact Hshapes ].
  intros r Hr.
  destruct Hr as [ index line | index line | index line | index original modified _ ];
    cbn [charChanges originalLine modifiedLine].
  - split; cbn; rewrite ?append_empty_r; reflexivity.
  - split; cbn; rewrite ?append_empty_r; reflexivity.
  - split; cbn; rewrite ?append_empty_r; reflexivity.
  - rewrite !rebuilt_calculateCharLevelDiff. apply Hboth.
Qed.

Lemma line_runs_rebuild_both_lines_witness :
  Forall (fun r : CharLevelDiffResult =>
            rebuilt in_original (charChanges r) = originalLine r
            /\ rebuilt in_modified (charChanges r) = modifiedLine r)
    (calculateMultiLineCharDiff diffLines_leading diffChars_minimal
       text_lines_a_b text_lines_a_c).
Proof.
  apply line_runs_rebuild_both_lines. exact diffChars_minimal_rebuilds_both.
Defined.

(** In every result of [calculateMultiLineCharDiff], hasChanges is
    true exactly when one of the result's runs is not of type equal; this
    for any line differ and any character differ. *)
Theorem hasChanges_iff_unequal_run :
  forall (diffLines diffChars : string -> string -> list Change) (a b : string),
    Forall (fun r : CharLevelDiffResult =>
              hasChanges r = existsb not_equal_type (charChanges r))
      (calculateMultiLineCharDiff diffLines diffChars a b).
Proof.
  intros diffLines diffChars a b.
  destruct (calculateMultiLineCharDiff_pushed diffLines diffChars a b) as [_ Hshapes].
  eapply Forall_impl; [ | exact Hshapes ].
  intros r Hr. destruct Hr; reflexivity.
Qed.

(** When every chunk of the line diff ends with a line feed,
    [calculateMultiLineCharDiff] returns one result more per chunk than the
    chunk has lines: the results are as many as the line feeds of the
    chunks plus the chunks, since the text after the last line feed of a
    chunk is kept as a line of its own. *)
Theorem one_more_result_per_chunk :
  forall (diffLines diffChars : string -> string -> list Change) (a b : string),
    Forall (fun lineChange : Change => js_endsWith (ch_value lineChange) newline = true)
      (diffLines a b) ->
    List.length (calculateMultiLineCharDiff diffLines diffChars a b)
    = list_sum (map (fun lineChange : Change => occurrences LF (ch_value lineChange))
                  (diffLines a b))
      + List.length (diffLines a b).
Proof.
  intros diffLines diffChars a b Hends.
  destruct (calculateMultiLineCharDiff_pushed diffLines diffChars a b) as [Hlength _].
  rewrite Hlength. clear Hlength.
  induction Hends as [ | lineChange rest Hend _ IH ]; [ reflexivity | ].
  cbn [map List.length].
  change (list_sum (?x :: ?l)) with (x + list_sum l).
  rewrite lines_of_all by exact Hend. rewrite js_split_length, IH. lia.
Qed.

Lemma one_more_result_per_chunk_witness :
  Forall (fun lineChange : Change => js_endsWith (ch_value lineChange) newline = true)
    (diffLines_leading text_lines_a_b text_lines_a_c)
  /\ List.length (calculateMultiLineCharDiff diffLines_leading diffChars_minimal
                    text_lines_a_b text_lines_a_c)
     = list_sum (map (fun lineChange : Change => occurrences LF (ch_value lineChange))
                   (diffLines_leading text_lines_a_b text_lines_a_c))
       + List.length (diffLines_leading text_lines_a_b text_lines_a_c).
Proof.
  assert (Hends : Forall (fun lineChange : Change =>
                            js_endsWith (ch_value lineChange) newline = true)
                    (diffLines_leading text_lines_a_b text_lines_a_c)).
  { vm_compute. repeat constructor. }
  split; [ exact Hends | ].
  apply one_more_result_per_chunk. exact Hends.
Defined.

(** ** The runs address the original text *)

Lemma substring_middle (p v q : string) :
  substring (String.length p) (String.length v) (p ++ v ++ q) = v.
Proof.
  induction p as [ | c p IH ]; [ | exact IH ].
  cbn [String.length append].
  induction v as [ | c v IH ]; [ destruct q; reflexivity | ].
  cbn. rewrite IH. reflexivity.
Qed.

Lemma length_append (s t : string) :
  String.length (s ++ t) = String.length s + String.length t.
Proof. induction s as [ | c s IH ]; [ reflexivity | cbn; rewrite IH; reflexivity ]. Qed.

Lemma convert_runs_addressed (text : string) (changes : list Change) :
  forall (charChanges : list CharChange) (before : string),
    text = before ++ chosen_values in_original changes ->
    Forall (addressed_in text) charChanges ->
    Forall (addressed_in text)
      (convert_runs changes charChanges (Z.of_nat (String.length before))).
Proof.
  induction changes as [ | change rest IH ]; intros charChanges before Htext Hruns;
    [ exact Hruns | ].
  cbn [convert_runs].
  unfold chosen_values in Htext. cbn [filter] in Htext. unfold type_of_run in Htext.
  destruct (ch_added change) eqn:Hadded; cbn [negb in_original] in *.
  - apply IH; [ exact Htext | ].
    apply Forall_app. split; [ exact Hruns | ].
    constructor; [ | constructor ].
    unfold addressed_in, convertToCharChange. cbn. rewrite Hadded. split; reflexivity.
  - assert (Hchosen : in_original (if ch_removed change then cc_remove else cc_equal) = true)
      by (destruct (ch_removed change); reflexivity).
    rewrite Hchosen in Htext. cbn [map] in Htext. rewrite concat_empty_cons in Htext.
    replace (Z.of_nat (String.length before) + Z.of_nat (String.length (ch_value change)))%Z
      with (Z.of_nat (String.length (before ++ ch_value change)))
      by (rewrite length_append; lia).
    apply IH.
    + rewrite append_associative. exact Htext.
    + apply Forall_app. split; [ exact Hruns | ].
      constructor; [ | constructor ].
      unfold addressed_in, convertToCharChange. cbn. rewrite Hadded.
      split; [ reflexivity | ].
      assert (Hsub : substring (Z.to_nat (Z.of_nat (String.length before)))
                       (String.length (ch_value change)) text = ch_value change).
      { rewrite Nat2Z.id, Htext. apply substring_middle. }
      destruct (ch_removed change); exact Hsub.
Qed.

(** When the runs of [diffChars] that are not added join to the
    original text, every run that [calculateCharLevelDiff] returns has as
    length the length of its value, and every run of type equal or remove
    is found in the original text at its startIndex: the substring of the
    original text of that length from startIndex on is the value of the
    run. *)
Theorem runs_address_original_text :
  forall (diffChars : string -> string -> list Change) (a b : string),
    chosen_values in_original (diffChars a b) = a ->
    Forall (addressed_in a) (calculateCharLevelDiff diffChars a b).
Proof.
  intros diffChars a b Hsource. unfold calculateCharLevelDiff.
  apply (convert_runs_addressed a (diffChars a b) [] "").
  - rewrite Hsource. reflexivity.
  - constructor.
Qed.

Lemma runs_address_original_text_witness :
  Forall (addressed_in "kitten") (calculateCharLevelDiff diffChars_minimal "kitten" "sitting").
Proof.
  apply runs_address_original_text. apply diffChars_minimal_rebuilds_both.
Defined.

(** ** What the flattener reads *)

Lemma traverse_reads_delta_only :
  forall (deltaNode : JSValue) (origNode modNode origNode' modNode' : option JSValue)
         (path : list string) (changes : list DiffChange) (lineNum : nat),
    traverse deltaNode origNode modNode path changes lineNum
    = traverse deltaNode origNode' modNode' path changes lineNum.
Proof.
  induction deltaNode as [ | b | n | s | items IHitems | props IHprops ] using JSValue_ind;
    intros origNode modNode origNode' modNode' path changes lineNum; try reflexivity.
  - cbn [traverse]. generalize 0 as i. revert changes lineNum.
    induction IHitems as [ | value rest Hvalue _ IHrest ]; intros changes lineNum i;
      [ reflexivity | ].
    cbn -[visit traverse string_of_nat].
    replace (visit traverse origNode' modNode' path (string_of_nat i) value changes lineNum)
      with (visit traverse origNode modNode path (string_of_nat i) value changes lineNum).
    + destruct (visit traverse origNode modNode path (string_of_nat i) value changes lineNum)
        as [changes' currentLine'].
      apply IHrest.
    + unfold visit. destruct (String.eqb (string_of_nat i) "_t"); [ reflexivity | ].
      destruct value; try reflexivity. apply Hvalue.
  - cbn [traverse]. revert changes lineNum.
    induction IHprops as [ | [key value] rest Hvalue _ IHrest ]; intros changes lineNum;
      [ reflexivity | ].
    cbn -[visit traverse].
    replace (visit traverse origNode' modNode' path key value changes lineNum)
      with (visit traverse origNode modNode path key value changes lineNum).
    + destruct (visit traverse origNode modNode path key value changes lineNum)
        as [changes' currentLine'].
      apply IHrest.
    + unfold visit. destruct (String.eqb key "_t"); [ reflexivity | ].
      destruct value; try reflexivity. apply Hvalue.
Qed.

(** The flattener reads the delta only: for every delta,
    [parseDeltaToDiffChanges] returns the same changes whatever original
    and modified documents it is given, which it hands down to the
    recursive calls of [traverse] and never reads. *)
Theorem flattener_reads_delta_only :
  forall delta original modified original' modified' : option JSValue,
    parseDeltaToDiffChanges delta original modified
    = parseDeltaToDiffChanges delta original' modified'.
Proof.
  intros delta original modified original' modified'. unfold parseDeltaToDiffChanges.
  destruct (js_not delta); [ reflexivity | ].
  destruct delta as [ d | ]; [ | reflexivity ].
  rewrite (traverse_reads_delta_only d original modified original' modified').
  reflexivity.
Qed.

Lemma visit_passed_over descend origNode modNode path key value changes currentLine :
  passed_over key value = true ->
  visit descend origNode modNode path key value changes currentLine = (changes, currentLine).
Proof.
  unfold passed_over, visit. destruct (String.eqb key "_t"); [ reflexivity | ].
  cbn [orb]. intros Hover.
  destruct value as [ | b | n | s | items | props ]; try reflexivity; [ | discriminate Hover ].
  unfold push_change.
  destruct items as [ | v0 [ | v1 [ | v2 [ | v3 rest ] ] ] ];
    try reflexivity; try discriminate Hover.
  destruct (is_zero v2); [ discriminate Hover | reflexivity ].
Qed.

Lemma traverse_without_passed_over :
  forall (deltaNode : JSValue) (origNode modNode : option JSValue)
         (path : list string) (changes : list DiffChange) (lineNum : nat),
    traverse (without_passed_over deltaNode) origNode modNode path changes lineNum
    = traverse deltaNode origNode modNode path changes lineNum.
Proof.
  induction deltaNode as [ | b | n | s | items IHitems | props IHprops ] using JSValue_ind;
    intros origNode modNode path changes lineNum; try reflexivity.
  cbn [without_passed_over traverse]. revert changes lineNum.
  induction IHprops as [ | [key value] rest Hvalue _ IHrest ]; intros changes lineNum;
    [ reflexivity | ].
  cbn [flat_map fst snd].
  destruct (passed_over key value) eqn:Hover.
  - cbn [app]. rewrite IHrest. cbn -[visit traverse].
    rewrite visit_passed_over by exact Hover. reflexivity.
  - cbn [app]. cbn -[visit traverse without_passed_over].
    replace (visit traverse origNode modNode path key (without_passed_over value)
               changes lineNum)
      with (visit traverse origNode modNode path key value changes lineNum).
    + destruct (visit traverse origNode modNode path key value changes lineNum)
        as [changes' currentLine'].
      apply IHrest.
    + unfold visit. destruct (String.eqb key "_t"); [ reflexivity | ].
      destruct value as [ | b | n | s | items | props ]; try reflexivity.
      symmetry. apply Hvalue.
Qed.

(** The delta entries for which [traverse] has no branch (those
    under the key [_t], arrays of no or of more than three elements, arrays
    of three elements whose last is not 0, strings, numbers, booleans and
    null) give no change and take no line number, at any depth: for every
    delta, the flattener returns for the delta without these entries what
    it returns for the delta. *)
Theorem passed_over_entries_change_nothing :
  forall delta original modified : option JSValue,
    parseDeltaToDiffChanges (option_map without_passed_over delta) original modified
    = parseDeltaToDiffChanges delta original modified.
Proof.
  intros delta original modified. unfold parseDeltaToDiffChanges.
  destruct delta as [ d | ]; [ | reflexivity ].
  cbn [option_map].
  replace (js_not (Some (without_passed_over d))) with (js_not (Some d))
    by (destruct d; reflexivity).
  destruct (js_not (Some d)); [ reflexivity | ].
  rewrite traverse_without_passed_over. reflexivity.
Qed.

(** ** The states of a comparison *)

(** Whatever the parser, the delta engine and the inputs are,
    [calculateDiffSync] returns a comparison that echoes the two texts and
    is in one of two states. Completed: no error, both texts parse, the
    parsed documents and their delta are carried and a calculation time is
    given. Error: the error is present, with the code of the original text
    when that fails to parse and of the modified text otherwise, and no
    parsed document (not even that of a valid original text), no delta, no
    difference and no calculation time is carried. The states idle and
    calculating, and the codes CALCULATION_ERROR and TIMEOUT, are never
    returned. *)
Theorem comparison_state_consistent :
  forall (JSON_parse : string -> string + JSValue)
         (diff : option JSValue -> option JSValue -> option JSValue)
         (clock : Clock) (a b : string) (opts : PartialDiffOptions),
    originalJSON (calculateDiffSync JSON_parse diff clock a b opts) = a
    /\ modifiedJSON (calculateDiffSync JSON_parse diff clock a b opts) = b
    /\ match status (calculateDiffSync JSON_parse diff clock a b opts) with
       | completed =>
           cmp_error (calculateDiffSync JSON_parse diff clock a b opts) = None
           /\ exists (o m : JSValue) (time : Z),
                JSON_parse a = inr o
                /\ JSON_parse b = inr m
                /\ originalParsed (calculateDiffSync JSON_parse diff clock a b opts) = Some o
                /\ modifiedParsed (calculateDiffSync JSON_parse diff clock a b opts) = Some m
                /\ cmp_delta (calculateDiffSync JSON_parse diff clock a b opts)
                   = diff (Some o) (Some m)
                /\ calculationTime (calculateDiffSync JSON_parse diff clock a b opts)
                   = Some time
       | error =>
           (exists e : DiffError,
              cmp_error (calculateDiffSync JSON_parse diff clock a b opts) = Some e
              /\ err_code e = match JSON_parse a with
                              | inl _ => PARSE_ERROR_ORIGINAL
                              | inr _ => PARSE_ERROR_MODIFIED
                              end)
           /\ originalParsed (calculateDiffSync JSON_parse diff clock a b opts) = None
           /\ modifiedParsed (calculateDiffSync JSON_parse diff clock a b opts) = None
           /\ cmp_delta (calculateDiffSync JSON_parse diff clock a b opts) = None
           /\ differences (calculateDiffSync JSON_parse diff clock a b opts) = []
           /\ calculationTime (calculateDiffSync JSON_parse diff clock a b opts) = None
       | idle | calculating => False
       end.
Proof.
  intros JSON_parse diff clock a b opts.
  unfold calculateDiffSync, validateJSON.
  destruct (JSON_parse a) as [ messageA | o ]; cbn -[string_or parseDeltaToDiffChanges].
  - repeat split. eexists. split; reflexivity.
  - destruct (JSON_parse b) as [ messageB | m ]; cbn -[string_or parseDeltaToDiffChanges].
    + repeat split. eexists. split; reflexivity.
    + repeat split. exists o, m. eexists. repeat split.
Qed.

(** ** The navigation between the differences *)

Lemma js_at_nat {A : Type} (xs : list A) (index : nat) :
  js_at xs (Z.of_nat index) = nth_error xs index.
Proof.
  unfold js_at. destruct (Z.ltb_spec (Z.of_nat index) 0) as [ Hneg | _ ]; [ lia | ].
  rewrite Nat2Z.id. reflexivity.
Qed.

Lemma scrolled_at (comparison : DiffComparison) (index : Z) :
  on_a_difference comparison index ->
  scrolled_to_a_difference comparison
    match js_at (differences comparison) index with
    | Some change => scrolled_to index (dc_id change)
    | None => thrown_TypeError index
    end
  /\ forall currentDiffIndex : Z,
       index_after currentDiffIndex
         match js_at (differences comparison) index with
         | Some change => scrolled_to index (dc_id change)
         | None => thrown_TypeError index
         end = index.
Proof.
  intros [Hlow Hhigh].
  rewrite <- (Z2Nat.id index) by exact Hlow. rewrite js_at_nat.
  destruct (nth_error (differences comparison) (Z.to_nat index)) as [ change | ] eqn:Hchange.
  - split; [ | reflexivity ]. exists (Z.to_nat index), change. split; [ reflexivity | exact Hchange ].
  - apply nth_error_None in Hchange. lia.
Qed.

Lemma next_on_a_difference (comparison : DiffComparison) (index : Z) :
  on_a_difference comparison index ->
  navigateToNext (Some comparison) index
  = match js_at (differences comparison)
            ((index + 1) mod Z.of_nat (List.length (differences comparison))) with
    | Some change =>
        scrolled_to ((index + 1) mod Z.of_nat (List.length (differences comparison)))
          (dc_id change)
    | None =>
        thrown_TypeError ((index + 1) mod Z.of_nat (List.length (differences comparison)))
    end
  /\ on_a_difference comparison
       ((index + 1) mod Z.of_nat (List.length (differences comparison))).
Proof.
  intros [Hlow Hhigh]. unfold navigateToNext, on_a_difference.
  destruct (Nat.eqb_spec (List.length (differences comparison)) 0) as [ Hnone | Hsome ];
    [ lia | ].
  rewrite Z.rem_mod_nonneg by lia.
  split; [ reflexivity | apply Z.mod_pos_bound; lia ].
Qed.

Lemma previous_on_a_difference (comparison : DiffComparison) (index : Z) :
  on_a_difference comparison index ->
  navigateToPrevious (Some comparison) index
  = match js_at (differences comparison)
            ((index - 1) mod Z.of_nat (List.length (differences comparison))) with
    | Some change =>
        scrolled_to ((index - 1) mod Z.of_nat (List.length (differences comparison)))
          (dc_id change)
    | None =>
        thrown_TypeError ((index - 1) mod Z.of_nat (List.length (differences comparison)))
    end
  /\ on_a_difference comparison
       ((index - 1) mod Z.of_nat (List.length (differences comparison))).
Proof.
  intros [Hlow Hhigh]. unfold navigateToPrevious, on_a_difference.
  destruct (Nat.eqb_spec (List.length (differences comparison)) 0) as [ Hnone | Hsome ];
    [ lia | ].
  assert (Hprev : (if (index =? 0)%Z
                   then (Z.of_nat (List.length (differences comparison)) - 1)%Z
                   else (index - 1)%Z)
                  = ((index - 1) mod Z.of_nat (List.length (differences comparison)))%Z).
  { destruct (Z.eqb_spec index 0) as [ Hzero | Hpositive ].
    - subst index. apply Z.mod_unique with (q := (-1)%Z); lia.
    - symmetry. apply Z.mod_small. lia. }
  rewrite Hprev.
  split; [ reflexivity | apply Z.mod_pos_bound; lia ].
Qed.

Lemma next_index_mod (comparison : DiffComparison) (index : Z) :
  on_a_difference comparison index ->
  next_index comparison index
  = ((index + 1) mod Z.of_nat (List.length (differences comparison)))%Z.
Proof.
  intros Hindex. unfold next_index.
  destruct (next_on_a_difference comparison index Hindex) as [Hnext Hon].
  rewrite Hnext. apply scrolled_at, Hon.
Qed.

Lemma previous_index_mod (comparison : DiffComparison) (index : Z) :
  on_a_difference comparison index ->
  previous_index comparison index
  = ((index - 1) mod Z.of_nat (List.length (differences comparison)))%Z.
Proof.
  intros Hindex. unfold previous_index.
  destruct (previous_on_a_difference comparison index Hindex) as [Hprevious Hon].
  rewrite Hprevious. apply scrolled_at, Hon.
Qed.

(** From the index of a difference, [navigateToNext] and
    [navigateToPrevious] each set the index of a difference of the
    comparison and read the id of that difference (no TypeError is
    thrown), and the index the reset effect sets for this comparison is
    the index of its first difference. *)
Theorem navigation_stays_on_a_difference :
  forall (comparison : DiffComparison) (index : Z),
    on_a_difference comparison index ->
    scrolled_to_a_difference comparison (navigateToNext (Some comparison) index)
    /\ scrolled_to_a_difference comparison (navigateToPrevious (Some comparison) index)
    /\ on_a_difference comparison (next_index comparison index)
    /\ on_a_difference comparison (previous_index comparison index)
    /\ reset_index (Some comparison) = 0%Z.
Proof.
  intros comparison index Hindex.
  destruct (next_on_a_difference comparison index Hindex) as [Hnext Hnext_on].
  destruct (previous_on_a_difference comparison index Hindex) as [Hprevious Hprevious_on].
  split; [ | split; [ | split; [ | split ] ] ].
  - rewrite Hnext. apply scrolled_at, Hnext_on.
  - rewrite Hprevious. apply scrolled_at, Hprevious_on.
  - rewrite next_index_mod by exact Hindex. exact Hnext_on.
  - rewrite previous_index_mod by exact Hindex. exact Hprevious_on.
  - unfold reset_index. destruct Hindex as [Hlow Hhigh].
    destruct (Nat.ltb_spec 0 (List.length (differences comparison))); [ reflexivity | lia ].
Qed.

Lemma navigation_stays_on_a_difference_witness :
  on_a_difference
    (calculateDiffSync JSON_parse_host jsondiffpatch_diff sample_clock
       text_before text_after no_options) 2
  /\ scrolled_to_a_difference
       (calculateDiffSync JSON_parse_host jsondiffpatch_diff sample_clock
          text_before text_after no_options)
       (navigateToNext
          (Some (calculateDiffSync JSON_parse_host jsondiffpatch_diff sample_clock
                   text_before text_after no_options)) 2).
Proof.
  assert (Hindex : on_a_difference
                     (calculateDiffSync JSON_parse_host jsondiffpatch_diff sample_clock
                        text_before text_after no_options) 2).
  { unfold on_a_difference. vm_compute. split; [ discriminate | reflexivity ]. }
  split; [ exact Hindex | ].
  apply (navigation_stays_on_a_difference _ 2 Hindex).
Defined.

Lemma iterated_next (comparison : DiffComparison) (index : Z) (presses : nat) :
  on_a_difference comparison index ->
  Nat.iter presses (next_index comparison) index
  = ((index + Z.of_nat presses) mod Z.of_nat (List.length (differences comparison)))%Z.
Proof.
  intros Hindex. pose proof Hindex as [Hlow Hhigh].
  induction presses as [ | presses IH ].
  - cbn [Nat.iter nat_rect]. rewrite Z.add_0_r. symmetry. apply Z.mod_small. lia.
  - cbn [Nat.iter nat_rect] in *. unfold Nat.iter in IH. rewrite IH.
    rewrite next_index_mod by (apply Z.mod_pos_bound; lia).
    rewrite Z.add_mod_idemp_l by lia. f_equal. lia.
Qed.

(** From the index of a difference, [navigateToPrevious] undoes
    [navigateToNext] and [navigateToNext] undoes [navigateToPrevious], and
    as many calls of [navigateToNext] as the comparison has differences
    lead round to the index they started from. *)
Theorem navigation_goes_round :
  forall (comparison : DiffComparison) (index : Z),
    on_a_difference comparison index ->
    previous_index comparison (next_index comparison index) = index
    /\ next_index comparison (previous_index comparison index) = index
    /\ Nat.iter (List.length (differences comparison)) (next_index comparison) index = index.
Proof.
  intros comparison index Hindex. pose proof Hindex as [Hlow Hhigh].
  destruct (next_on_a_difference comparison index Hindex) as [_ Hnext_on].
  destruct (previous_on_a_difference comparison index Hindex) as [_ Hprevious_on].
  split; [ | split ].
  - rewrite (next_index_mod comparison index Hindex).
    rewrite previous_index_mod by exact Hnext_on.
    rewrite Zminus_mod_idemp_l. replace (index + 1 - 1)%Z with index by lia.
    apply Z.mod_small. lia.
  - rewrite (previous_index_mod comparison index Hindex).
    rewrite next_index_mod by exact Hprevious_on.
    rewrite Z.add_mod_idemp_l by lia. replace (index - 1 + 1)%Z with index by lia.
    apply Z.mod_small. lia.
  - rewrite iterated_next by exact Hindex.
    rewrite <- (Z.mul_1_l (Z.of_nat (List.length (differences comparison)))) at 1.
    rewrite Z.mod_add by lia. apply Z.mod_small. lia.
Qed.

Lemma navigation_goes_round_witness :
  on_a_difference
    (calculateDiffSync JSON_parse_host jsondiffpatch_diff sample_clock
       text_before text_after no_options) 2
  /\ Nat.iter 3
       (next_index (calculateDiffSync JSON_parse_host jsondiffpatch_diff sample_clock
                      text_before text_after no_options)) 2%Z = 2%Z.
Proof.
  assert (Hindex : on_a_difference
                     (calculateDiffSync JSON_parse_host jsondiffpatch_diff sample_clock
                        text_before text_after no_options) 2).
  { unfold on_a_difference. vm_compute. split; [ discriminate | reflexivity ]. }
  split; [ exact Hindex | ].
  apply (navigation_goes_round _ 2 Hindex).
Defined.

Lemma calculateDiffSync_in_emission_order
    (JSON_parse : string -> string + JSValue)
    (diff : option JSValue -> option JSValue -> option JSValue)
    (clock : Clock) (a b : string) (opts : PartialDiffOptions) :
  exists lineNum : nat,
    in_emission_order (differences (calculateDiffSync JSON_parse diff clock a b opts)) lineNum.
Proof.
  assert (Hstart : in_emission_order [] 1).
  { split; [ reflexivity | ]. intros n. destruct n; exact I. }
  unfold calculateDiffSync, validateJSON.
  destruct (JSON_parse a) as [ messageA | o ]; cbn -[string_or parseDeltaToDiffChanges];
    [ exists 1; exact Hstart | ].
  destruct (JSON_parse b) as [ messageB | m ]; cbn -[string_or parseDeltaToDiffChanges];
    [ exists 1; exact Hstart | ].
  apply (parseDeltaToDiffChanges_keeps in_emission_order push_change_in_emission_order).
  exact Hstart.
Qed.

(** On a comparison that [calculateDiffSync] returns, from the index
    of a difference, [navigateToNext] and [navigateToPrevious] scroll to
    the id diff-j, where j is the index they set: the ids of the flattener
    are the navigation indices. *)
Theorem navigation_scrolls_to_diff_id :
  forall (JSON_parse : string -> string + JSValue)
         (diff : option JSValue -> option JSValue -> option JSValue)
         (clock : Clock) (a b : string) (opts : PartialDiffOptions) (index : Z),
    on_a_difference (calculateDiffSync JSON_parse diff clock a b opts) index ->
    (exists j : nat,
       navigateToNext (Some (calculateDiffSync JSON_parse diff clock a b opts)) index
       = scrolled_to (Z.of_nat j) ("diff-" ++ string_of_nat j))
    /\ exists j : nat,
         navigateToPrevious (Some (calculateDiffSync JSON_parse diff clock a b opts)) index
         = scrolled_to (Z.of_nat j) ("diff-" ++ string_of_nat j).
Proof.
  intros JSON_parse diff clock a b opts index Hindex.
  destruct (calculateDiffSync_in_emission_order JSON_parse diff clock a b opts)
    as [lineNum [_ Hids]].
  destruct (next_on_a_difference _ index Hindex) as [Hnext Hnext_on].
  destruct (previous_on_a_difference _ index Hindex) as [Hprevious Hprevious_on].
  split.
  - destruct (scrolled_at _ _ Hnext_on) as [(j & change & Hdone & Hchange) _].
    exists j. rewrite Hnext, Hdone. f_equal.
    specialize (Hids j). rewrite Hchange in Hids. apply Hids.
  - destruct (scrolled_at _ _ Hprevious_on) as [(j & change & Hdone & Hchange) _].
    exists j. rewrite Hprevious, Hdone. f_equal.
    specialize (Hids j). rewrite Hchange in Hids. apply Hids.
Qed.

Lemma navigation_scrolls_to_diff_id_witness :
  on_a_difference
    (calculateDiffSync JSON_parse_host jsondiffpatch_diff sample_clock
       text_before text_after no_options) 2
  /\ exists j : nat,
       navigateToNext
         (Some (calculateDiffSync JSON_parse_host jsondiffpatch_diff sample_clock
                  text_before text_after no_options)) 2
       = scrolled_to (Z.of_nat j) ("diff-" ++ string_of_nat j).
Proof.
  assert (Hindex : on_a_difference
                     (calculateDiffSync JSON_parse_host jsondiffpatch_diff sample_clock
                        text_before text_after no_options) 2).
  { unfold on_a_difference. vm_compute. split; [ discriminate | reflexivity ]. }
  split; [ exact Hindex | ].
  apply (navigation_scrolls_to_diff_id _ _ _ _ _ _ 2 Hindex).
Defined.

(** ** The exports *)

Lemma push_entries_lines (changes : list DiffChange) :
  forall (index : nat) (lines : list string) (k : nat),
    List.length (push_entries changes index lines)
    = List.length lines + 3 * List.length changes
    /\ (forall n : nat, (n < List.length lines)%nat ->
          nth_error (push_entries changes index lines) n = nth_error lines n)
    /\ match nth_error changes k with
       | Some change =>
           nth_error (push_entries changes index lines) (List.length lines + 3 * k)
           = Some ("[" ++ string_of_nat (index + k + 1) ++ "] "
                   ++ toUpperCase (type_name (dc_type change)) ++ ": " ++ dc_keyPath change)
           /\ nth_error (push_entries changes index lines) (List.length lines + 3 * k + 1)
              = Some ("    " ++ dc_displayText change)
           /\ nth_error (push_entries changes index lines) (List.length lines + 3 * k + 2)
              = Some ""
       | None => True
       end.
Proof.
  induction changes as [ | change rest IH ]; intros index lines k.
  - cbn [push_entries List.length]. split; [ lia | ]. split; [ reflexivity | ].
    destruct k; exact I.
  - cbn [push_entries].
    set (label := "[" ++ string_of_nat (index + 1) ++ "] "
                  ++ toUpperCase (type_name (dc_type change)) ++ ": " ++ dc_keyPath change).
    set (detail := "    " ++ dc_displayText change).
    set (pushed := (((lines ++ [label]) ++ [detail]) ++ [""])%list).
    assert (Hpushed : pushed = (lines ++ [label; detail; ""])%list)
      by (unfold pushed; rewrite <- !app_assoc; reflexivity).
    assert (Hlength : List.length pushed = List.length lines + 3)
      by (rewrite Hpushed, length_app; reflexivity).
    destruct (IH (S index) pushed (pred k)) as (Hall & Hbefore & Hentry).
    split; [ | split ].
    + rewrite Hall, Hlength. cbn [List.length]. lia.
    + intros n Hn. rewrite Hbefore by lia.
      rewrite Hpushed. apply nth_error_app1, Hn.
    + destruct k as [ | k ].
      * cbn [nth_error]. rewrite !Hbefore by lia. rewrite Hpushed.
        rewrite !nth_error_app2 by lia.
        replace (List.length lines + 3 * 0 - List.length lines) with 0 by lia.
        replace (List.length lines + 3 * 0 + 1 - List.length lines) with 1 by lia.
        replace (List.length lines + 3 * 0 + 2 - List.length lines) with 2 by lia.
        replace (index + 0 + 1) with (index + 1) by lia.
        repeat split.
      * cbn [nth_error pred] in *.
        destruct (nth_error rest k) as [ later | ]; [ | exact I ].
        rewrite Hlength in Hentry.
        replace (List.length lines + 3 * S k) with (List.length lines + 3 + 3 * k) by lia.
        replace (index + S k + 1) with (S index + k + 1) by lia.
        exact Hentry.
Qed.

(** The lines that [formatAsText] joins with line feeds are ten lines
    of header, then three lines for each difference in the order of the
    list: for the difference at index k (from 0) the label with the number
    k + 1, the type in capital letters and the keyPath, then the
    displayText after four spaces, then an empty line. *)
Theorem text_export_numbers_entries :
  forall (comparison : DiffComparison) (k : nat),
    List.length (formatAsText_lines comparison)
    = 10 + 3 * List.length (differences comparison)
    /\ match nth_error (differences comparison) k with
       | Some change =>
           nth_error (formatAsText_lines comparison) (10 + 3 * k)
           = Some ("[" ++ string_of_nat (k + 1) ++ "] " ++ type_label (dc_type change)
                   ++ ": " ++ dc_keyPath change)
           /\ nth_error (formatAsText_lines comparison) (10 + 3 * k + 1)
              = Some ("    " ++ dc_displayText change)
           /\ nth_error (formatAsText_lines comparison) (10 + 3 * k + 2) = Some ""
       | None => True
       end.
Proof.
  intros comparison k. unfold formatAsText_lines.
  match goal with
  | |- context [ push_entries _ 0 ?header ] =>
      destruct (push_entries_lines (differences comparison) 0 header k)
        as (Hall & _ & Hentry)
  end.
  split; [ exact Hall | ].
  destruct (nth_error (differences comparison) k) as [ change | ]; [ | exact I ].
  replace (type_label (dc_type change)) with (toUpperCase (type_name (dc_type change)))
    by (destruct (dc_type change); reflexivity).
  exact Hentry.
Qed.

(** When a text fails to parse, the exports of the comparison that
    [calculateDiffSync] returns do not tell: [formatAsText] gives the
    report of a comparison without differences, with all counts 0 and no
    word of the error, and [generateJSONPatch] gives the empty patch, for
    every patch generator. *)
Theorem failed_comparison_exports :
  forall (JSON_parse : string -> string + JSValue)
         (diff : option JSValue -> option JSValue -> option JSValue)
         (compare : option JSValue -> option JSValue -> JSONPatch)
         (clock : Clock) (a b : string) (opts : PartialDiffOptions),
    status (calculateDiffSync JSON_parse diff clock a b opts) = error ->
    formatAsText (calculateDiffSync JSON_parse diff clock a b opts) = empty_text_report
    /\ generateJSONPatch compare (calculateDiffSync JSON_parse diff clock a b opts) = [].
Proof.
  intros JSON_parse diff compare clock a b opts.
  unfold calculateDiffSync, validateJSON.
  destruct (JSON_parse a) as [ messageA | o ]; cbn -[string_or parseDeltaToDiffChanges].
  - intros _. split; reflexivity.
  - destruct (JSON_parse b) as [ messageB | m ]; cbn -[string_or parseDeltaToDiffChanges].
    + intros _. split; reflexivity.
    + discriminate.
Qed.

Lemma failed_comparison_exports_witness :
  formatAsText (calculateDiffSync JSON_parse_host jsondiffpatch_diff sample_clock
                  text_open_brace text_a1 no_options) = empty_text_report
  /\ generateJSONPatch replace_document
       (calculateDiffSync JSON_parse_host jsondiffpatch_diff sample_clock
          text_open_brace text_a1 no_options) = [].
Proof.
  apply failed_comparison_exports. vm_compute. reflexivity.
Defined.

Lemma concat_map_In {A : Type} (f : A -> string) (x : A) (xs : list A) :
  In x xs ->
  exists before after : string, String.concat "" (map f xs) = before ++ f x ++ after.
Proof.
  intros Hx. destruct (in_split x xs Hx) as (l1 & l2 & Hxs). subst xs.
  exists (String.concat "" (map f l1)), (String.concat "" (map f l2)).
  rewrite map_app, concat_empty_app. cbn [map]. rewrite concat_empty_cons. reflexivity.
Qed.

Lemma within_tail (x s t : string) :
  (exists before after : string, t = before ++ x ++ after) ->
  exists before after : string, s ++ t = before ++ x ++ after.
Proof.
  intros (before & after & Ht). exists (s ++ before), after.
  rewrite Ht, append_associative. reflexivity.
Qed.

Lemma within_head (x s t : string) :
  (exists before after : string, s = before ++ x ++ after) ->
  exists before after : string, s ++ t = before ++ x ++ after.
Proof.
  intros (before & after & Hs). exists before, (after ++ t).
  rewrite Hs, !append_associative. reflexivity.
Qed.

Lemma change_block_verbatim (change : DiffChange) :
  exists before after : string,
    change_block change
    = before
      ++ ("<div class=" ++ quoted "change-path" ++ ">" ++ dc_keyPath change ++ "</div>"
          ++ newline ++ "      "
          ++ "<div class=" ++ quoted "change-details" ++ ">" ++ dc_displayText change
          ++ "</div>")
      ++ after.
Proof.
  exists ("
    <div class=" ++ dquote ++ "change " ++ type_name (dc_type change) ++ dquote ++ ">
      <div class=" ++ dquote ++ "change-type" ++ dquote ++ ">" ++ type_name (dc_type change)
          ++ "</div>
      "), "
    </div>
  ".
  unfold change_block, quoted, newline.
  generalize (dc_keyPath change) (dc_displayText change) (type_name (dc_type change)) dquote.
  intros keyPath displayText type quote.
  rewrite !append_associative. cbn [append]. reflexivity.
Qed.

Lemma blocks_verbatim (change : DiffChange) (changes : list DiffChange) :
  In change changes ->
  exists before after : string,
    String.concat "" (map change_block changes)
    = before
      ++ ("<div class=" ++ quoted "change-path" ++ ">" ++ dc_keyPath change ++ "</div>"
          ++ newline ++ "      "
          ++ "<div class=" ++ quoted "change-details" ++ ">" ++ dc_displayText change
          ++ "</div>")
      ++ after.
Proof.
  intros Hchange.
  destruct (concat_map_In change_block change changes Hchange)
    as (blocks_before & blocks_after & Hblocks).
  rewrite Hblocks. apply within_tail, within_head, change_block_verbatim.
Qed.

(** [exportAsHTML] returns a blob of type text/html with one part, in
    which the keyPath and the displayText of every difference of the
    comparison stand as they are, unescaped, within the elements of the
    classes change-path and change-details. *)
Theorem html_export_inserts_verbatim :
  forall (generated : string) (comparison : DiffComparison) (change : DiffChange),
    In change (differences comparison) ->
    blob_type (exportAsHTML generated comparison) = "text/html"
    /\ exists before after : string,
         blob_parts (exportAsHTML generated comparison)
         = [ before
             ++ "<div class=" ++ quoted "change-path" ++ ">" ++ dc_keyPath change ++ "</div>"
             ++ newline ++ "      "
             ++ "<div class=" ++ quoted "change-details" ++ ">" ++ dc_displayText change
             ++ "</div>" ++ after ].
Proof.
  intros generated comparison change Hchange. split; [ reflexivity | ].
  assert (Hcontent : exists before after : string,
             hd "" (blob_parts (exportAsHTML generated comparison))
             = before
               ++ ("<div class=" ++ quoted "change-path" ++ ">" ++ dc_keyPath change
                   ++ "</div>" ++ newline ++ "      "
                   ++ "<div class=" ++ quoted "change-details" ++ ">"
                   ++ dc_displayText change ++ "</div>")
               ++ after).
  { unfold exportAsHTML. cbn [blob_parts hd].
    repeat match goal with
           | |- exists before after : string, ?s ++ ?t = _ =>
               lazymatch s with
               | String.concat _ _ => fail
               | _ => apply within_tail
               end
           end.
    apply within_head, blocks_verbatim, Hchange. }
  destruct Hcontent as (before & after & Hcontent).
  exists before, after.
  change (blob_parts (exportAsHTML generated comparison))
    with [hd "" (blob_parts (exportAsHTML generated comparison))].
  rewrite Hcontent. f_equal. f_equal.
  generalize (dc_keyPath change) (dc_displayText change).
  intros keyPath displayText.
  rewrite !append_associative. reflexivity.
Qed.

Lemma html_export_inserts_verbatim_witness :
  exists before after : string,
    blob_parts
      (exportAsHTML "2026/11/2"
         (calculateDiffSync JSON_parse_host jsondiffpatch_diff sample_clock
            text_a1 text_a2 no_options))
    = [ before
        ++ "<div class=" ++ quoted "change-path" ++ ">" ++ "a" ++ "</div>"
        ++ newline ++ "      "
        ++ "<div class=" ++ quoted "change-details" ++ ">" ++ "a: 1 → 2"
        ++ "</div>" ++ after ].
Proof.
  apply (html_export_inserts_verbatim "2026/11/2"
           (calculateDiffSync JSON_parse_host jsondiffpatch_diff sample_clock
              text_a1 text_a2 no_options)
           {| dc_id := "diff-0";
              dc_type := modification;
              dc_keyPath := "a";
              dc_originalValue := Some (JNum 1);
              dc_modifiedValue := Some (JNum 2);
              dc_lineNumber := {| ln_original := Some 1; ln_modified := Some 1 |};
              dc_displayText := "a: 1 → 2" |}).
  vm_compute. left. reflexivity.
Defined.

(** ** No difference between two containers is missed *)

















